(** * Tag management of the PZ backup tool: a shallow embedding

    The development follows the TypeScript sources of the front end:

    - [types/tags.ts]: [Tag], [TagTarget], [tagTargetToKey],
      [isValidHexColor], [shouldUseLightText];
    - [hooks/useTags.ts]: the hooks [useTags], [useBackupTags] and
      [useSaveTags], written in a state-and-exception monad over the
      hook state and an abstract backend;
    - [components/TagPicker.tsx] and [components/TagEditor.tsx]: the
      event handlers, as transitions of the component state.

    JavaScript strings are sequences of UTF-16 code units; they are
    modelled as lists of [N], so every statement quantifies over all
    strings the program can receive.  JavaScript numbers are IEEE 754
    binary64 values and are modelled by the primitive floats. *)

From Stdlib Require Import ZArith NArith List Bool Lia String Ascii.
From Stdlib Require Import Floats.
From stdpp Require Import gmap.
Import ListNotations.

Set Default Proof Using "Type".
Set Warnings "-clear-no-such-hyp".
Local Open Scope N_scope.

(** ** JavaScript strings *)

Module JS.

(** A string is its sequence of code units. *)
Definition jsstring : Type := list N.

(** The code units of an ASCII literal of the source text. *)
Definition lit (s : string) : jsstring :=
  map N_of_ascii (list_ascii_of_string s).

Definition jsstring_eqb (a b : jsstring) : bool :=
  bool_decide (a = b).

(** [s.length === 0]: the only falsy string. *)
Definition truthy (s : jsstring) : bool :=
  match s with [] => false | _ :: _ => true end.

(** [a || b] on strings. *)
Definition or_else (a b : jsstring) : jsstring :=
  if truthy a then a else b.

(** WhiteSpace and LineTerminator code units (ECMAScript 12.2, 12.3):
    TAB, LF, VT, FF, CR, SP, NBSP, the Unicode space separators,
    LS, PS and ZWNBSP. *)
Definition isWhiteSpace (c : N) : bool :=
  (9 <=? c) && (c <=? 13)
  || (c =? 32) || (c =? 160) || (c =? 5760)
  || (8192 <=? c) && (c <=? 8202)
  || (c =? 8232) || (c =? 8233) || (c =? 8239) || (c =? 8287)
  || (c =? 12288) || (c =? 65279).

Fixpoint trimStart (s : jsstring) : jsstring :=
  match s with
  | c :: tl => if isWhiteSpace c then trimStart tl else s
  | [] => []
  end.

Definition trimEnd (s : jsstring) : jsstring :=
  rev (trimStart (rev s)).

(** [String.prototype.trim]. *)
Definition trim (s : jsstring) : jsstring :=
  trimEnd (trimStart s).

(** [s.substring(start, end)]: the arguments are clamped to the length
    and swapped when [start > end]. *)
Definition substring (s : jsstring) (start finish : nat) : jsstring :=
  let lo := Nat.min start finish in
  let hi := Nat.max start finish in
  firstn (hi - lo) (skipn lo s).

(** [s.replace(search, replacement)] for a one-code-unit search string
    and a replacement without [$] patterns: only the first occurrence
    is replaced. *)
Fixpoint replace (search : N) (replacement : jsstring) (s : jsstring)
  : jsstring :=
  match s with
  | [] => []
  | c :: tl =>
      if c =? search then replacement ++ tl
      else c :: replace search replacement tl
  end.

(** A template literal is a sequence of literal chunks and substituted
    values; its value is their concatenation. *)
Inductive TemplatePart : Type :=
| Chunk (text : string)
| Subst (value : jsstring).

Definition part_value (p : TemplatePart) : jsstring :=
  match p with
  | Chunk text => lit text
  | Subst value => value
  end.

Definition template (parts : list TemplatePart) : jsstring :=
  concat (map part_value parts).

End JS.

Import JS.

(** ** [types/tags.ts] *)

(** [interface Tag { name: string; color: string }] *)
Record Tag : Type := mkTag { name : jsstring; color : jsstring }.

(** [type TagTarget = { type: "backup"; saveName; backupName }
                    | { type: "save"; relativePath }] *)
Inductive TagTarget : Type :=
| Backup (saveName backupName : jsstring)
| Save (relativePath : jsstring).

Definition backupTarget (saveName backupName : jsstring) : TagTarget :=
  Backup saveName backupName.

Definition saveTarget (relativePath : jsstring) : TagTarget :=
  Save relativePath.

(** [target.type === "backup"] *)
Definition isBackupTarget (target : TagTarget) : bool :=
  match target with Backup _ _ => true | Save _ => false end.

(** [target.type === "save"] *)
Definition isSaveTarget (target : TagTarget) : bool :=
  match target with Backup _ _ => false | Save _ => true end.

(** [tagTargetToKey]: the [match] is the type guard [isBackupTarget],
    which gives access to the fields of the variant. *)
Definition tagTargetToKey (target : TagTarget) : jsstring :=
  match target with
  | Backup saveName backupName =>
      template [Chunk "backup:"; Subst saveName; Chunk ":"; Subst backupName]
  | Save relativePath =>
      template [Chunk "save:"; Subst relativePath]
  end.

(** The separator of the key encoding. *)
Definition colon : N := 58.

(** No [saveName] or [backupName] field contains [':']. *)
Definition no_separator (target : TagTarget) : Prop :=
  match target with
  | Backup saveName backupName => (colon ∉ saveName) ∧ (colon ∉ backupName)
  | Save _ => True
  end.

(** ** Regular expressions, as ECMAScript evaluates them

    A pattern is compiled to a matcher in continuation-passing style
    (ECMAScript 22.2.2): a matcher takes the state reached so far and a
    continuation for the rest of the pattern, and backtracks when the
    continuation fails.  Only the constructs of the patterns of this
    program are present; no flag is set, so matching is by code unit,
    [^] holds at index 0 only and [$] at the end of the input only. *)

Module RegExp.

Inductive Regex : Type :=
| Empty
| AssertStart
| AssertEnd
| Char (c : N)
| Class (ranges : list (N * N))
| Group (r : Regex)
| Seq (r1 r2 : Regex)
| Alt (r1 r2 : Regex)
| Repeat (r : Regex) (n : nat).

(** The state of a match: the index reached and the input from there. *)
Record MatchState : Type := mkState { endIndex : nat; rest : jsstring }.

Definition advance (x : MatchState) (tl : jsstring) : MatchState :=
  mkState (S (endIndex x)) tl.

Definition in_ranges (ranges : list (N * N)) (ch : N) : bool :=
  existsb (fun '(lo, hi) => (lo <=? ch) && (ch <=? hi)) ranges.

Fixpoint matcher (r : Regex) (k : MatchState -> bool) (x : MatchState)
  : bool :=
  match r with
  | Empty => k x
  | AssertStart => if Nat.eqb (endIndex x) 0 then k x else false
  | AssertEnd => match rest x with [] => k x | _ :: _ => false end
  | Char c =>
      match rest x with
      | ch :: tl => if ch =? c then k (advance x tl) else false
      | [] => false
      end
  | Class ranges =>
      match rest x with
      | ch :: tl => if in_ranges ranges ch then k (advance x tl) else false
      | [] => false
      end
  | Group r1 => matcher r1 k x
  | Seq r1 r2 => matcher r1 (matcher r2 k) x
  | Alt r1 r2 => if matcher r1 k x then true else matcher r2 k x
  | Repeat r1 n =>
      (fix rep (n : nat) (k : MatchState -> bool) : MatchState -> bool :=
         match n with
         | O => k
         | S n' => matcher r1 (rep n' k)
         end) n k x
  end.

(** [RegExpBuiltinExec] for a pattern that is neither global nor
    sticky: the match is tried at index 0, then at each later index up
    to the length of the input. *)
Fixpoint exec_from (r : Regex) (index : nat) (input : jsstring) : bool :=
  if matcher r (fun _ => true) (mkState index input) then true
  else
    match input with
    | [] => false
    | _ :: tl => exec_from r (S index) tl
    end.

(** [RegExp.prototype.test] *)
Definition test (r : Regex) (s : jsstring) : bool := exec_from r 0 s.

(** What a pattern matches between two states, read off the grammar. *)
Fixpoint spans (r : Regex) (x y : MatchState) : Prop :=
  match r with
  | Empty => y = x
  | AssertStart => endIndex x = O ∧ y = x
  | AssertEnd => rest x = [] ∧ y = x
  | Char c => ∃ tl, rest x = c :: tl ∧ y = advance x tl
  | Class ranges =>
      ∃ ch tl, rest x = ch :: tl ∧ in_ranges ranges ch = true
               ∧ y = advance x tl
  | Group r1 => spans r1 x y
  | Seq r1 r2 => ∃ z, spans r1 x z ∧ spans r2 z y
  | Alt r1 r2 => spans r1 x y ∨ spans r2 x y
  | Repeat r1 n =>
      (fix rep (n : nat) (x : MatchState) : Prop :=
         match n with
         | O => y = x
         | S n' => ∃ z, spans r1 x z ∧ rep n' z
         end) n x
  end.

End RegExp.

Import RegExp.

Definition ch (a : ascii) : N := N_of_ascii a.

(** [[A-Fa-f0-9]] *)
Definition hexDigitClass : Regex :=
  Class [(ch "A", ch "F"); (ch "a", ch "f"); (ch "0", ch "9")].

(** [/^#([A-Fa-f0-9]{6}|[A-Fa-f0-9]{3})$/] *)
Definition hexColorPattern : Regex :=
  Seq AssertStart
    (Seq (Char (ch "#"))
       (Seq (Group (Alt (Repeat hexDigitClass 6) (Repeat hexDigitClass 3)))
          AssertEnd)).

(** [isValidHexColor] *)
Definition isValidHexColor (color : jsstring) : bool :=
  test hexColorPattern color.

(** The pattern the specification writes,
    [^#([0-9A-Fa-f]{3}|[0-9A-Fa-f]{6})$]. *)
Definition specHexDigitClass : Regex :=
  Class [(ch "0", ch "9"); (ch "A", ch "F"); (ch "a", ch "f")].

Definition specHexColorPattern : Regex :=
  Seq AssertStart
    (Seq (Char (ch "#"))
       (Seq (Group (Alt (Repeat specHexDigitClass 3)
                        (Repeat specHexDigitClass 6)))
          AssertEnd)).

(** The specification in words: a hexadecimal digit, and ['#'] followed
    by exactly 3 or exactly 6 of them. *)
Definition hex_digit (c : N) : Prop :=
  (ch "0" <= c <= ch "9") ∨ (ch "A" <= c <= ch "F") ∨ (ch "a" <= c <= ch "f").

Definition hash_then_hex (n : nat) (s : jsstring) : Prop :=
  ∃ digits, s = ch "#" :: digits ∧ length digits = n
            ∧ Forall hex_digit digits.

Definition hex_color_shape (s : jsstring) : Prop :=
  hash_then_hex 3 s ∨ hash_then_hex 6 s.

(** ** Numbers: [parseInt] and the luminance test *)

Module Number.

(** The Number value for a mathematical integer: round to nearest,
    ties to even, overflow to infinity. *)
Definition of_Z (z : Z) : float :=
  SF2Prim (binary_normalize prec emax z 0 false).

(** The value of a code unit as a digit: [0-9], [a-z] and [A-Z]. *)
Definition digit_value (c : N) : option N :=
  if (48 <=? c) && (c <=? 57) then Some (c - 48)
  else if (97 <=? c) && (c <=? 122) then Some (c - 87)
  else if (65 <=? c) && (c <=? 90) then Some (c - 55)
  else None.

Definition radix_digit (R : N) (c : N) : option N :=
  match digit_value c with
  | Some d => if d <? R then Some d else None
  | None => None
  end.

(** The digits of the longest prefix of [s] made of radix-[R] digits. *)
Fixpoint leading_digits (R : N) (s : jsstring) : list N :=
  match s with
  | c :: tl =>
      match radix_digit R c with
      | Some d => d :: leading_digits R tl
      | None => []
      end
  | [] => []
  end.

Definition mathInt (R : N) (digits : list N) : N :=
  fold_left (fun acc d => acc * R + d) digits 0.

(** A leading ['+'] or ['-'] is removed; ['-'] makes the sign negative. *)
Definition split_sign (s : jsstring) : bool * jsstring :=
  match s with
  | 45 :: tl => (true, tl)
  | 43 :: tl => (false, tl)
  | _ => (false, s)
  end.

(** [parseInt(string, radix)] (ECMAScript 19.2.5) for a radix given as
    an integer: radix 0 means 10, a radix outside 2..36 gives NaN, and
    a leading ["0x"] or ["0X"] is stripped for radix 0 and 16 only. *)
Definition parseInt (s : jsstring) (radix : N) : float :=
  let '(negative, S1) := split_sign (trimStart s) in
  if negb (radix =? 0) && ((radix <? 2) || (36 <? radix)) then nan
  else
    let R := if radix =? 0 then 10 else radix in
    let stripPrefix := (radix =? 0) || (radix =? 16) in
    let '(R, S2) :=
      if stripPrefix then
        match S1 with
        | 48 :: 120 :: tl | 48 :: 88 :: tl => (16, tl)
        | _ => (R, S1)
        end
      else (R, S1) in
    match leading_digits R S2 with
    | [] => nan
    | digits =>
        let n := mathInt R digits in
        if n =? 0 then (if negative then neg_zero else zero)
        else of_Z (if negative then - Z.of_N n else Z.of_N n)
    end.

End Number.

Import Number.

(** [(0.299 * r + 0.587 * g + 0.114 * b) / 255]; the decimal constants
    denote the nearest binary64 values, as in JavaScript. *)
#[warnings="-inexact-float"]
Definition luminance (r g b : float) : float :=
  ((0.299 * r + 0.587 * g + 0.114 * b) / 255)%float.

(** [shouldUseLightText] *)
Definition shouldUseLightText (backgroundColor : jsstring) : bool :=
  let hex := replace (ch "#") [] backgroundColor in
  let r := parseInt (substring hex 0 2) 16 in
  let g := parseInt (substring hex 2 4) 16 in
  let b := parseInt (substring hex 4 6) 16 in
  (luminance r g b <? 0.5)%float.

(** The value of a hexadecimal digit, and of a pair of them. *)
Definition hex_value (c : N) : N :=
  match digit_value c with Some d => d | None => 0 end.


(** [DEFAULT_TAG_COLORS] *)
Definition DEFAULT_TAG_COLORS : list (string * jsstring) :=
  [ ("Red"%string, lit "#EF4444"); ("Orange"%string, lit "#F97316");
    ("Yellow"%string, lit "#EAB308"); ("Green"%string, lit "#22C55E");
    ("Blue"%string, lit "#3B82F6"); ("Purple"%string, lit "#A855F7");
    ("Pink"%string, lit "#EC4899"); ("Gray"%string, lit "#6B7280") ].

(** ** The backend commands the hooks invoke *)

Module Tauri.

(** The commands of [hooks/useTags.ts], each with its arguments. *)
Inductive Command : Type :=
| get_all_tags_command
| create_tag_command (name color : jsstring)
| delete_tag_command (name : jsstring)
| get_backup_tags_command (saveName backupName : jsstring)
| add_tags_to_backup_command (saveName backupName : jsstring)
    (tags : list jsstring)
| remove_tags_from_backup_command (saveName backupName : jsstring)
    (tags : list jsstring)
| get_save_tags_command (relativePath : jsstring)
| add_tags_to_save_command (relativePath : jsstring) (tags : list jsstring)
| remove_tags_from_save_command (relativePath : jsstring)
    (tags : list jsstring).

(** What the promise of a command resolves to: the hooks read a
    [Tag[]] from the three queries and nothing from the others. *)
Definition Response (c : Command) : Type :=
  match c with
  | get_all_tags_command
  | get_backup_tags_command _ _
  | get_save_tags_command _ => list Tag
  | _ => unit
  end.

(** A backend answers a command from its state: the promise resolves
    ([inr]) or rejects with an error ([inl]). *)
Class Backend (B Err : Type) : Type :=
  invoke : ∀ c : Command, B → (Err + Response c) * B.

End Tauri.

Import Tauri.

(** ** Asynchronous code: state, exceptions and the backend

    An [async] function that awaits every promise it starts is a
    computation over the world it runs in: the backend, the commands
    invoked so far, the console, and the state of the hook or component
    it belongs to.  It ends by returning or by throwing. *)

Module Async.

Section Monad.
Context {B Err : Type}.

Inductive Outcome (A : Type) : Type :=
| Returned (a : A)
| Thrown (e : Err).

Record World (S : Type) : Type := mkWorld {
  backend : B;
  invoked : list Command;
  console : list (jsstring * Err);
  local : S
}.

Definition M (S A : Type) : Type := World S → Outcome A * World S.

Definition ret {S A} (a : A) : M S A := λ w, (Returned A a, w).

Definition bind {S A C} (m : M S A) (k : A → M S C) : M S C :=
  λ w, match m w with
       | (Returned _ a, w') => k a w'
       | (Thrown _ e, w') => (Thrown C e, w')
       end.

Definition throw {S A} (e : Err) : M S A := λ w, (Thrown A e, w).

(** [try { body } catch (err) { handler }] *)
Definition try_catch {S A} (body : M S A) (handler : Err → M S A) : M S A :=
  λ w, match body w with
       | (Returned _ a, w') => (Returned A a, w')
       | (Thrown _ e, w') => handler e w'
       end.

(** [try { body } finally { finalizer }]: the finalizer runs on both
    exits, and the outcome of the body stands unless it throws. *)
Definition finally {S A} (body : M S A) (finalizer : M S unit) : M S A :=
  λ w, let '(r, w') := body w in
       match finalizer w' with
       | (Returned _ _, w'') => (r, w'')
       | (Thrown _ e, w'') => (Thrown A e, w'')
       end.

(** A state setter of [useState]. *)
Definition modify {S} (f : S → S) : M S unit :=
  λ w, (Returned unit tt,
        mkWorld S (backend S w) (invoked S w) (console S w) (f (local S w))).

(** [console.error(message, err)] *)
Definition console_error {S} (message : string) (err : Err) : M S unit :=
  λ w, (Returned unit tt,
        mkWorld S (backend S w) (invoked S w)
          (console S w ++ [(lit message, err)]) (local S w)).

(** [await invoke(command, args)] *)
Definition call {S} `{!Backend B Err} (c : Command) : M S (Response c) :=
  λ w, let '(answer, b') := invoke c (backend S w) in
       let w' := mkWorld S b' (invoked S w ++ [c]) (console S w) (local S w) in
       match answer with
       | inr v => (Returned _ v, w')
       | inl e => (Thrown _ e, w')
       end.

(** [await callback(args)] for an asynchronous callback of the
    embedding application that acts on the backend. *)
Definition await {S A} (callback : B → (Err + A) * B) : M S A :=
  λ w, let '(answer, b') := callback (backend S w) in
       let w' := mkWorld S b' (invoked S w) (console S w) (local S w) in
       match answer with
       | inr v => (Returned _ v, w')
       | inl e => (Thrown _ e, w')
       end.

(** A hook used inside a component runs on the component's copy of the
    hook state. *)
Definition zoom {S T A} (get : S → T) (set : T → S → S) (m : M T A)
  : M S A :=
  λ w, let '(r, v) :=
         m (mkWorld T (backend S w) (invoked S w) (console S w)
              (get (local S w))) in
       (r, mkWorld S (backend T v) (invoked T v) (console T v)
             (set (local T v) (local S w))).

End Monad.

Arguments Outcome : clear implicits.
Arguments World : clear implicits.
Arguments M : clear implicits.
Arguments Returned {Err A} a.
Arguments Thrown {Err A} e.
Arguments mkWorld {B Err S} backend invoked console local.
Arguments backend {B Err S} w.
Arguments invoked {B Err S} w.
Arguments console {B Err S} w.
Arguments local {B Err S} w.

End Async.

Import Async.

#[global] Instance M_ret {B Err S} : MRet (M B Err S) := λ A a, Async.ret a.
#[global] Instance M_bind {B Err S} : MBind (M B Err S) :=
  λ A C k m, Async.bind m k.

(** ** [hooks/useTags.ts] *)

Module Hooks.

Section WithBackend.
Context {B Err : Type} `{!Backend B Err}.

(** The state of [useTags]. *)
Record TagsState : Type := mkTagsState {
  tags : list Tag;
  loading : bool;
  error : option jsstring
}.

Definition setTags (v : list Tag) : M B Err TagsState unit :=
  modify (λ s, mkTagsState v (loading s) (error s)).
Definition setLoading (v : bool) : M B Err TagsState unit :=
  modify (λ s, mkTagsState (tags s) v (error s)).
Definition setError (v : option jsstring) : M B Err TagsState unit :=
  modify (λ s, mkTagsState (tags s) (loading s) v).

Definition loadAllTags : M B Err TagsState unit :=
  finally
    (try_catch
       (setLoading true;;
        setError None;;
        allTags ← call get_all_tags_command;
        setTags allTags)
       (λ err,
          console_error "Failed to load tags:" err;;
          setError (Some (lit "Failed to load tags"))))
    (setLoading false).

Definition createTag (name color : jsstring) : M B Err TagsState unit :=
  finally
    (try_catch
       (setLoading true;;
        setError None;;
        call (create_tag_command name color);;
        loadAllTags)
       (λ err,
          console_error "Failed to create tag:" err;;
          setError (Some (lit "Failed to create tag"));;
          throw err))
    (setLoading false).

Definition deleteTag (name : jsstring) : M B Err TagsState unit :=
  finally
    (try_catch
       (setLoading true;;
        setError None;;
        call (delete_tag_command name);;
        loadAllTags)
       (λ err,
          console_error "Failed to delete tag:" err;;
          setError (Some (lit "Failed to delete tag"));;
          throw err))
    (setLoading false).

(** The state of [useBackupTags] and of [useSaveTags]. *)
Record OpState : Type := mkOpState {
  op_loading : bool;
  op_error : option jsstring
}.

Definition setOpLoading (v : bool) : M B Err OpState unit :=
  modify (λ s, mkOpState v (op_error s)).
Definition setOpError (v : option jsstring) : M B Err OpState unit :=
  modify (λ s, mkOpState (op_loading s) v).

Definition getBackupTags (saveName backupName : jsstring)
  : M B Err OpState (list Tag) :=
  finally
    (try_catch
       (setOpLoading true;;
        setOpError None;;
        tags ← call (get_backup_tags_command saveName backupName);
        mret tags)
       (λ err,
          console_error "Failed to get backup tags:" err;;
          setOpError (Some (lit "Failed to get backup tags"));;
          mret []))
    (setOpLoading false).

Definition addBackupTags (saveName backupName : jsstring)
    (tagNames : list jsstring) : M B Err OpState unit :=
  finally
    (try_catch
       (setOpLoading true;;
        setOpError None;;
        call (add_tags_to_backup_command saveName backupName tagNames))
       (λ err,
          console_error "Failed to add backup tags:" err;;
          setOpError (Some (lit "Failed to add backup tags"));;
          throw err))
    (setOpLoading false).

Definition removeBackupTags (saveName backupName : jsstring)
    (tagNames : list jsstring) : M B Err OpState unit :=
  finally
    (try_catch
       (setOpLoading true;;
        setOpError None;;
        call (remove_tags_from_backup_command saveName backupName tagNames))
       (λ err,
          console_error "Failed to remove backup tags:" err;;
          setOpError (Some (lit "Failed to remove backup tags"));;
          throw err))
    (setOpLoading false).

Definition getSaveTags (relativePath : jsstring)
  : M B Err OpState (list Tag) :=
  finally
    (try_catch
       (setOpLoading true;;
        setOpError None;;
        tags ← call (get_save_tags_command relativePath);
        mret tags)
       (λ err,
          console_error "Failed to get save tags:" err;;
          setOpError (Some (lit "Failed to get save tags"));;
          mret []))
    (setOpLoading false).

Definition addSaveTags (relativePath : jsstring) (tagNames : list jsstring)
  : M B Err OpState unit :=
  finally
    (try_catch
       (setOpLoading true;;
        setOpError None;;
        call (add_tags_to_save_command relativePath tagNames))
       (λ err,
          console_error "Failed to add save tags:" err;;
          setOpError (Some (lit "Failed to add save tags"));;
          throw err))
    (setOpLoading false).

Definition removeSaveTags (relativePath : jsstring)
    (tagNames : list jsstring) : M B Err OpState unit :=
  finally
    (try_catch
       (setOpLoading true;;
        setOpError None;;
        call (remove_tags_from_save_command relativePath tagNames))
       (λ err,
          console_error "Failed to remove save tags:" err;;
          setOpError (Some (lit "Failed to remove save tags"));;
          throw err))
    (setOpLoading false).

(** The world in which a mutating function of [useTags] reloads the
    tags, once its own command [c] has resolved and left the backend
    in state [b']: the command is on the trace, [loading] is set and
    [error] cleared. *)
Definition reloading (c : Command) (b' : B) (w : World B Err TagsState)
  : World B Err TagsState :=
  mkWorld b' (invoked w ++ [c]) (console w)
    (mkTagsState (tags (local w)) true None).

End WithBackend.

Arguments TagsState : clear implicits.
Arguments OpState : clear implicits.

End Hooks.

(** ** [components/TagPicker.tsx] *)

Module TagPicker.

(** The [useState] cells of the component. *)
Record State : Type := mkState {
  showCreateForm : bool;
  newTagName : jsstring;
  newTagColor : jsstring;
  customColor : jsstring
}.

(** The state of the first render: [newTagColor] is
    [DEFAULT_TAG_COLORS[4].value]. *)
Definition initial : State :=
  mkState false [] (nth 4 (map snd DEFAULT_TAG_COLORS) []) [].

(** What a handler does to the outside: the form event and the
    [onCreateTag] property. *)
Inductive Effect : Type :=
| PreventDefault
| OnCreateTag (name color : jsstring).

(** The colour the form submits: [customColor || newTagColor]. *)
Definition chosenColor (st : State) : jsstring :=
  or_else (customColor st) (newTagColor st).

(** [handleCreateTag]; [hasOnCreateTag] tells whether the optional
    property [onCreateTag] was given. *)
Definition handleCreateTag (hasOnCreateTag : bool) (st : State)
  : list Effect * State :=
  let name := trim (newTagName st) in
  let color := chosenColor st in
  if negb (truthy name) then ([PreventDefault], st)
  else if negb (isValidHexColor color) then ([PreventDefault], st)
  else
    (PreventDefault ::
       (if hasOnCreateTag then [OnCreateTag name color] else []),
     mkState false [] (newTagColor st) []).

(** The calls of [onCreateTag] among the effects. *)
Definition created (effects : list Effect) : list (jsstring * jsstring) :=
  flat_map (λ e, match e with
                 | OnCreateTag n c => [(n, c)]
                 | PreventDefault => []
                 end) effects.

(** [new Set(selectedTags.map((t) => t.name))] *)
Definition selectedTagNames (selectedTags : list Tag) : gset jsstring :=
  list_to_set (map name selectedTags).

(** [isTagSelected]: [selectedTagNames.has(tag.name)] *)
Definition isTagSelected (selectedTags : list Tag) (tag : Tag) : bool :=
  bool_decide (name tag ∈ selectedTagNames selectedTags).

(** The [onChange] of the name input: [setNewTagName(e.target.value)]. *)
Definition changeName (value : jsstring) (st : State) : State :=
  mkState (showCreateForm st) value (newTagColor st) (customColor st).

(** The [onClick] of a palette button:
    [setNewTagColor(color.value); setCustomColor("")]. *)
Definition pickColor (value : jsstring) (st : State) : State :=
  mkState (showCreateForm st) (newTagName st) value [].

(** The [onChange] of the colour input: [setCustomColor(e.target.value)]. *)
Definition changeCustomColor (value : jsstring) (st : State) : State :=
  mkState (showCreateForm st) (newTagName st) (newTagColor st) value.

(** The [onClick] of the Cancel button of the form. *)
Definition cancel (st : State) : State :=
  mkState false [] (newTagColor st) [].

(** The [disabled] attribute of the submit button:
    [disabled || !newTagName.trim()]. *)
Definition submitDisabled (disabled : bool) (st : State) : bool :=
  disabled || negb (truthy (trim (newTagName st))).

End TagPicker.

(** ** [components/TagList.tsx] *)

Module TagList.

(** What is rendered for one tag: the label, the two colours of the
    [style], and the argument the remove button would pass to
    [onRemoveTag] when the button is rendered. *)
Record Chip : Type := mkChip {
  label : jsstring;
  backgroundColor : jsstring;
  textColor : jsstring;
  removeButton : option jsstring
}.

Definition chip (hasOnRemoveTag editable : bool) (tag : Tag) : Chip :=
  mkChip (name tag) (color tag)
    (if shouldUseLightText (color tag) then lit "#FFFFFF" else lit "#000000")
    (if editable && hasOnRemoveTag then Some (name tag) else None).

(** The component: [null] for an empty list, one chip per tag
    otherwise. *)
Definition render (tags : list Tag) (hasOnRemoveTag editable : bool)
  : option (list Chip) :=
  if Nat.eqb (length tags) 0 then None
  else Some (map (chip hasOnRemoveTag editable) tags).

End TagList.

(** ** [components/TagEditor.tsx] *)

Module TagEditor.

(** [tags.some((t) => t.name === n)] *)
Definition some_named (n : jsstring) (tags : list Tag) : bool :=
  existsb (λ t, jsstring_eqb (name t) n) tags.

(** [tags.filter((t) => t.name !== n)] *)
Definition without (n : jsstring) (tags : list Tag) : list Tag :=
  List.filter (λ t, negb (jsstring_eqb (name t) n)) tags.

(** The updater [handleTagToggle] passes to [setSelectedTags]. *)
Definition handleTagToggle (tag : Tag) (prev : list Tag) : list Tag :=
  let isSelected := some_named (name tag) prev in
  if isSelected then without (name tag) prev else prev ++ [tag].

(** The updater [handleRemoveSelected] passes to [setSelectedTags]. *)
Definition handleRemoveSelected (tagName : jsstring) (prev : list Tag)
  : list Tag :=
  without tagName prev.

(** The calls of the properties [onSave] and [onCancel]. *)
Inductive PropCall : Type :=
| OnSave (tagNames : list jsstring)
| OnCancel.

Section WithBackend.
Context {B Err : Type} `{!Backend B Err}.

(** The state of the component: its [useTags] instance, its own
    [useState] cells, and the property calls made so far. *)
Record State : Type := mkState {
  hook : Hooks.TagsState;
  selectedTags : list Tag;
  saving : bool;
  error : option jsstring;
  called : list PropCall
}.

Definition setSelectedTags (f : list Tag → list Tag) : M B Err State unit :=
  modify (λ s, mkState (hook s) (f (selectedTags s)) (saving s) (error s)
                 (called s)).
Definition setSaving (v : bool) : M B Err State unit :=
  modify (λ s, mkState (hook s) (selectedTags s) v (error s) (called s)).
Definition setError (v : option jsstring) : M B Err State unit :=
  modify (λ s, mkState (hook s) (selectedTags s) (saving s) v (called s)).
Definition record_call (c : PropCall) : M B Err State unit :=
  modify (λ s, mkState (hook s) (selectedTags s) (saving s) (error s)
                 (called s ++ [c])).

(** The functions of [useTags()] run on the component's hook state. *)
Definition with_hook {A} (m : M B Err Hooks.TagsState A) : M B Err State A :=
  zoom hook
    (λ h s, mkState h (selectedTags s) (saving s) (error s) (called s)) m.

(** [handleCreateTag].  [captured] is the [selectedTags] of the render
    that created the handler: the test reads this variable of the
    closure, while the updater receives the current list [prev]. *)
Definition handleCreateTag (captured : list Tag) (name color : jsstring)
  : M B Err State unit :=
  try_catch
    (with_hook (Hooks.createTag name color);;
     with_hook Hooks.loadAllTags;;
     let newTag := mkTag name color in
     if negb (some_named name captured)
     then setSelectedTags (λ prev, prev ++ [newTag])
     else mret tt)
    (λ _, setError (Some (lit "Failed to create tag"))).

(** The property [onSave]: an asynchronous callback of the parent that
    acts on the backend and resolves or rejects. *)
Variable onSave : list jsstring → B → (Err + unit) * B.

Definition await_onSave (tagNames : list jsstring) : M B Err State unit :=
  record_call (OnSave tagNames);;
  await (onSave tagNames).

(** [handleSave], with the [selectedTags] of its render. *)
Definition handleSave (captured : list Tag) : M B Err State unit :=
  finally
    (try_catch
       (setSaving true;;
        setError None;;
        let tagNames := map name captured in
        await_onSave tagNames;;
        record_call OnCancel)
       (λ _, setError (Some (lit "Failed to save tags"))))
    (setSaving false).

(** A creation overtaken by a click.  [handleCreateTag] is called in a
    render whose [selectedTags] is the current list, which its closure
    captures; while the handler awaits the backend, the tag is toggled
    in the picker; then the handler goes on.  The toggle touches the
    selection only and the awaited calls touch everything but the
    selection, so the world reached is the one where the toggle is
    handled first and the handler then runs with the list it
    captured. *)
Definition createOvertakenByToggle (tag : Tag) (w : World B Err State)
  : World B Err State :=
  let captured := selectedTags (local w) in
  let toggled := (setSelectedTags (handleTagToggle tag) w).2 in
  (handleCreateTag captured (name tag) (color tag) toggled).2.

(** The creation form of the picker inside the dialog,
    [<TagPicker onCreateTag={handleCreateTag} ... />]: a submission
    runs the picker's handler, and each call of [onCreateTag] it makes
    runs [handleCreateTag] of the render the picker belongs to. *)
Definition submitCreateForm (form : TagPicker.State) (w : World B Err State)
  : TagPicker.State * World B Err State :=
  let '(effects, form') := TagPicker.handleCreateTag true form in
  let captured := selectedTags (local w) in
  (form',
   foldl (λ v call, (handleCreateTag captured call.1 call.2 v).2) w
     (TagPicker.created effects)).

(** The list of selected tags in the dialog,
    [<TagList tags={selectedTags} editable
              onRemoveTag={handleRemoveSelected} />], rendered when the
    selection is not empty: a click on the remove button of the chip at
    [index] runs [handleRemoveSelected] with the name the chip holds. *)
Definition clickRemove (index : nat) : M B Err State unit :=
  λ w,
    match TagList.render (selectedTags (local w)) true true with
    | Some chips =>
        match chips !! index with
        | Some c =>
            match TagList.removeButton c with
            | Some tagName =>
                setSelectedTags (handleRemoveSelected tagName) w
            | None => (Returned tt, w)
            end
        | None => (Returned tt, w)
        end
    | None => (Returned tt, w)
    end.

End WithBackend.

Arguments State : clear implicits.

End TagEditor.

(** A backend that cannot be reached: every command rejects. *)
#[global] Instance unreachable : Backend unit jsstring :=
  λ c _, (inl (lit "backend unreachable"), tt).

(** A backend that keeps the tags in a list and answers a given number
    of commands before it becomes unreachable. *)
#[global] Instance short_lived : Backend (nat * list Tag) jsstring :=
  λ c st,
    match st.1 with
    | O => (inl (lit "backend unreachable"), st)
    | S k =>
        match c as c0 return (jsstring + Response c0) * (nat * list Tag) with
        | get_all_tags_command => (inr st.2, (k, st.2))
        | create_tag_command n col => (inr tt, (k, st.2 ++ [mkTag n col]))
        | delete_tag_command n => (inr tt,
             (k, List.filter (λ t, negb (jsstring_eqb (name t) n)) st.2))
        | get_backup_tags_command _ _ => (inr [], (k, st.2))
        | get_save_tags_command _ => (inr [], (k, st.2))
        | _ => (inr tt, (k, st.2))
        end
    end.

(** ** The tag store behind the commands

    The backend that implements the commands is not part of the
    TypeScript sources; the hooks only invoke it.  Its model follows
    the design document: a registry of tags, an index of associations,
    and a store that composes them and writes through to an injected
    persistence capability. *)

Module TagStore.

(** Modelled from the spec: the error taxonomy of the Tag Store (the
    backend source is missing). *)
Inductive Error : Type :=
| EmptyName
| InvalidColor
| DuplicateTag
| TagNotFound
| PersistenceFailure.

(** Modelled from the spec: the Tag Registry, the defined tags in
    insertion order (the backend source is missing). *)
Module Registry.

(** Modelled from the spec: the registry state (backend source
    missing). *)
Definition t : Type := list Tag.

(** Modelled from the spec: [listAll], in insertion order (backend
    source missing). *)
Definition listAll (reg : t) : list Tag := reg.

(** Modelled from the spec: [exists(name)], a case-sensitive exact
    match (backend source missing). *)
Definition exists_ (n : jsstring) (reg : t) : bool :=
  existsb (λ tag, jsstring_eqb (name tag) n) reg.

(** Modelled from the spec: the registry lookup [getTagsFor] uses
    (backend source missing). *)
Definition lookup (n : jsstring) (reg : t) : option Tag :=
  find (λ tag, jsstring_eqb (name tag) n) reg.

(** Modelled from the spec: [create(name, color)], with the three
    failures in the order the document lists them (backend source
    missing). *)
Definition create (n c : jsstring) (reg : t) : Error + t :=
  if exists_ n reg then inl DuplicateTag
  else if negb (isValidHexColor c) then inl InvalidColor
  else if negb (truthy (trim n)) then inl EmptyName
  else inr (reg ++ [mkTag n c]).

(** Modelled from the spec: [delete(name)]; it does not touch the
    associations (backend source missing). *)
Definition delete (n : jsstring) (reg : t) : Error + t :=
  if exists_ n reg
  then inr (List.filter (λ tag, negb (jsstring_eqb (name tag) n)) reg)
  else inl TagNotFound.

End Registry.

(** Modelled from the spec: the Association Index, a mapping from
    target key to set of tag names (the backend source is missing). *)
Module Index.

Abbreviation t := (gmap jsstring (gset jsstring)).

(** Modelled from the spec: [tagsFor(T)], empty when [T] has no entry
    (backend source missing). *)
Definition tagsFor (T : jsstring) (idx : t) : gset jsstring :=
  default ∅ (idx !! T).

(** Modelled from the spec: [add(T, N)] (backend source missing). *)
Definition add (T N : jsstring) (idx : t) : t :=
  <[T := {[N]} ∪ tagsFor T idx]> idx.

(** Modelled from the spec: [remove(T, N)] (backend source missing). *)
Definition remove (T N : jsstring) (idx : t) : t :=
  match idx !! T with
  | Some names => <[T := names ∖ {[N]}]> idx
  | None => idx
  end.

(** Modelled from the spec: [removeTagEverywhere(N)] (backend source
    missing). *)
Definition removeTagEverywhere (N : jsstring) (idx : t) : t :=
  (λ names, names ∖ {[N]}) <$> idx.

(** Modelled from the spec: [targetsFor(N)], the reverse view (backend
    source missing). *)
Definition targetsFor (N : jsstring) (idx : t) : gset jsstring :=
  dom (filter (λ entry, N ∈ entry.2) idx).

End Index.

(** Modelled from the spec: the Tags Database, the registry plus the
    associations (the backend source is missing). *)
Record TagsDatabase : Type := mkDb {
  registry : Registry.t;
  index : Index.t
}.

(** Modelled from the spec: the injected persistence capability; [save]
    reports failure by [None] (the backend source is missing). *)
Class Persistence (Disk : Type) : Type := {
  load : Disk → TagsDatabase;
  save : TagsDatabase → Disk → option Disk
}.

Section Store.
Context {Disk : Type} `{!Persistence Disk}.

(** Modelled from the spec: the Tag Store state, the database in
    memory and the persisted form (backend source missing). *)
Record Store : Type := mkStore { db : TagsDatabase; disk : Disk }.

(** Modelled from the spec: persist the new aggregate; on failure the
    in-memory change is rolled back and the failure surfaced. *)
Definition commit (db' : TagsDatabase) (st : Store) : (Error + unit) * Store :=
  match save db' (disk st) with
  | Some disk' => (inr tt, mkStore db' disk')
  | None => (inl PersistenceFailure, st)
  end.

(** Modelled from the spec: [createTag] of section 4.4. *)
Definition createTag (n c : jsstring) (st : Store) : (Error + unit) * Store :=
  match Registry.create n c (registry (db st)) with
  | inr reg' => commit (mkDb reg' (index (db st))) st
  | inl e => (inl e, st)
  end.

(** Modelled from the spec: [deleteTag] of section 4.4, the registry
    removal and the cascade over the index, then one write. *)
Definition deleteTag (n : jsstring) (st : Store) : (Error + unit) * Store :=
  match Registry.delete n (registry (db st)) with
  | inr reg' =>
      commit (mkDb reg' (Index.removeTagEverywhere n (index (db st)))) st
  | inl e => (inl e, st)
  end.

(** Modelled from the spec: [getTagsFor]; a name of the index that the
    registry lacks is skipped. *)
Definition getTagsFor (target : TagTarget) (st : Store) : list Tag :=
  let key := tagTargetToKey target in
  omap (λ n, Registry.lookup n (registry (db st)))
    (elements (Index.tagsFor key (index (db st)))).

(** Modelled from the spec: [addTagsToTarget], all names validated
    before any mutation. *)
Definition addTagsToTarget (target : TagTarget) (tagNames : list jsstring)
    (st : Store) : (Error + unit) * Store :=
  if forallb (λ n, Registry.exists_ n (registry (db st))) tagNames then
    let key := tagTargetToKey target in
    commit (mkDb (registry (db st))
              (foldr (Index.add key) (index (db st)) tagNames)) st
  else (inl TagNotFound, st).

(** Modelled from the spec: [removeTagsFromTarget]. *)
Definition removeTagsFromTarget (target : TagTarget)
    (tagNames : list jsstring) (st : Store) : (Error + unit) * Store :=
  let key := tagTargetToKey target in
  commit (mkDb (registry (db st))
            (foldr (Index.remove key) (index (db st)) tagNames)) st.

(** Modelled from the spec: [getAllTags]. *)
Definition getAllTags (st : Store) : list Tag :=
  Registry.listAll (registry (db st)).

(** Modelled from the spec: the command surface of section 6. *)
#[global] Instance command_surface : Backend Store Error :=
  λ c st,
    match c as c0 return (Error + Response c0) * Store with
    | get_all_tags_command => (inr (getAllTags st), st)
    | create_tag_command n c => createTag n c st
    | delete_tag_command n => deleteTag n st
    | get_backup_tags_command s b => (inr (getTagsFor (Backup s b) st), st)
    | add_tags_to_backup_command s b names =>
        addTagsToTarget (Backup s b) names st
    | remove_tags_from_backup_command s b names =>
        removeTagsFromTarget (Backup s b) names st
    | get_save_tags_command p => (inr (getTagsFor (Save p) st), st)
    | add_tags_to_save_command p names => addTagsToTarget (Save p) names st
    | remove_tags_from_save_command p names =>
        removeTagsFromTarget (Save p) names st
    end.

(** Modelled from the spec: referential integrity, every tag name of
    an association is in the registry (backend source missing). *)
Definition integrity (d : TagsDatabase) : Prop :=
  ∀ T N, N ∈ Index.tagsFor T (index d) →
         Registry.exists_ N (registry d) = true.

End Store.

Arguments Store : clear implicits.

(** Modelled from the spec: a persistence capability for the scenario
    below; the disk holds the last saved aggregate and the number of
    writes it still accepts (backend source missing). *)
#[global] Instance quota_disk : Persistence (nat * TagsDatabase) := {
  load d := d.2;
  save d' d := match d.1 with
               | O => None
               | S q => Some (q, d')
               end
}.

End TagStore.

(** ** A scenario

    The scenario of the design document: the registry holds
    ["Important"] in red, the save ["world1"] gets that tag, and the
    tag is deleted.  The disk accepts five writes. *)

Module Scenario.

Import TagStore.

Definition important : Tag := mkTag (lit "Important") (lit "#EF4444").
Definition boss : Tag := mkTag (lit "Boss") (lit "#22C55E").

Definition store0 : Store (nat * TagsDatabase) :=
  mkStore (mkDb [important] ∅) (5%nat, mkDb [important] ∅).

(** After [addTagsToSave("world1", ["Important"])]. *)
Definition store1 : Store (nat * TagsDatabase) :=
  (invoke (add_tags_to_save_command (lit "world1") [lit "Important"])
     store0).2.

(** After [createTag("Boss", "#22C55E")] on [store0]. *)
Definition store2 : Store (nat * TagsDatabase) :=
  (invoke (create_tag_command (lit "Boss") (lit "#22C55E")) store0).2.

(** A [useTags] instance before its first load, over [store0]. *)
Definition hook0
  : World (Store (nat * TagsDatabase)) Error Hooks.TagsState :=
  mkWorld store0 [] [] (Hooks.mkTagsState [] false None).

(** The same hooks while the backend cannot be reached. *)
Definition offline_tags : World unit jsstring Hooks.TagsState :=
  mkWorld tt [] [] (Hooks.mkTagsState [important] false None).

Definition offline_ops : World unit jsstring Hooks.OpState :=
  mkWorld tt [] [] (Hooks.mkOpState false None).

(** [useSaveTags] over the store, before and after the tag is added. *)
Definition ops0
  : World (Store (nat * TagsDatabase)) Error Hooks.OpState :=
  mkWorld store0 [] [] (Hooks.mkOpState false (Some (lit "stale"))).

Definition ops1
  : World (Store (nat * TagsDatabase)) Error Hooks.OpState :=
  mkWorld store1 [] [] (Hooks.mkOpState false (Some (lit "stale"))).

(** The dialog opened on a save that carries ["Important"]. *)
Definition editor0
  : World (Store (nat * TagsDatabase)) Error TagEditor.State :=
  mkWorld store0 [] []
    (TagEditor.mkState (Hooks.mkTagsState [] false None) [important]
       false None []).

(** A parent whose [onSave] always resolves. *)
Definition onSave_ok (tagNames : list jsstring)
    (b : Store (nat * TagsDatabase))
  : (Error + unit) * Store (nat * TagsDatabase) :=
  (inr tt, b).

(** The dialog opened with nothing selected. *)
Definition editor_empty
  : World (Store (nat * TagsDatabase)) Error TagEditor.State :=
  mkWorld store0 [] []
    (TagEditor.mkState (Hooks.mkTagsState [] false None) [] false None []).

(** A [useTags] instance that has loaded ["Important"], over a backend
    that answers one more command. *)
Definition last_answer : World (nat * list Tag) jsstring Hooks.TagsState :=
  mkWorld (1%nat, [important]) [] []
    (Hooks.mkTagsState [important] false None).

End Scenario.

(** * Properties *)

(** ** Target keys *)

(** A field without separator determines where the first separator of
    the key stands. *)
Lemma split_at_separator (c : N) (s1 s2 b1 b2 : jsstring) :
  c ∉ s1 → c ∉ s2 → s1 ++ c :: b1 = s2 ++ c :: b2 → s1 = s2 ∧ b1 = b2.
Proof.
  revert s2. induction s1 as [|x s1 IH]; intros [|y s2] H1 H2 E; simpl in E.
  - by inversion E.
  - inversion E; subst. exfalso. apply H2. left.
  - inversion E; subst. exfalso. apply H1. left.
  - inversion E; subst.
    apply not_elem_of_cons in H1 as [_ H1].
    apply not_elem_of_cons in H2 as [_ H2].
    destruct (IH s2 H1 H2) as [-> ->]; done.
Qed.

Lemma backup_key_not_save_key (saveName backupName relativePath : jsstring) :
  tagTargetToKey (Backup saveName backupName)
  ≠ tagTargetToKey (Save relativePath).
Proof. discriminate. Qed.

Example tagTargetToKey_examples :
  tagTargetToKey (backupTarget (lit "world1") (lit "2024-01-01"))
  = lit "backup:world1:2024-01-01"
  ∧ tagTargetToKey (saveTarget (lit "Survival/world1"))
    = lit "save:Survival/world1".
Proof. split; reflexivity. Qed.

(** With a [':'] in a field two backups can share a key: the
    assumption of the encoding is needed. *)
Example tagTargetToKey_separator_collision :
  tagTargetToKey (Backup (lit "a:b") (lit "c"))
  = tagTargetToKey (Backup (lit "a") (lit "b:c")).
Proof. reflexivity. Qed.

(** C4. [tagTargetToKey] is a total function of the target (it yields a
    key for every target and has no failure mode), and the key is
    exactly ["backup:" + saveName + ":" + backupName] for a backup
    target and ["save:" + relativePath] for a save target. *)
Theorem tagTargetToKey_total_exact (target : TagTarget) :
  (∃ key, tagTargetToKey target = key)
  ∧ match target with
    | Backup saveName backupName =>
        isBackupTarget target = true
        ∧ tagTargetToKey target
          = lit "backup:" ++ saveName ++ lit ":" ++ backupName
    | Save relativePath =>
        isBackupTarget target = false
        ∧ tagTargetToKey target = lit "save:" ++ relativePath
    end.
Proof.
  split; [by eexists|].
  destruct target as [saveName backupName|relativePath]; split; try done.
  - unfold tagTargetToKey, template. simpl. by rewrite app_nil_r.
  - unfold tagTargetToKey, template. simpl. by rewrite app_nil_r.
Qed.

(** C2. Two distinct targets none of whose [saveName] and [backupName]
    fields contains [':'] have distinct keys; and a backup key never
    equals a save key, whatever the fields hold. *)
Theorem tagTargetToKey_injective (t1 t2 : TagTarget) :
  (no_separator t1 → no_separator t2 → t1 ≠ t2 →
   tagTargetToKey t1 ≠ tagTargetToKey t2)
  ∧ (isBackupTarget t1 = true → isSaveTarget t2 = true →
     tagTargetToKey t1 ≠ tagTargetToKey t2).
Proof.
  split.
  - intros H1 H2 Hne E. apply Hne. clear Hne.
    destruct t1 as [s1 b1|p1], t2 as [s2 b2|p2]; try discriminate E.
    + destruct H1 as [H1 _], H2 as [H2 _].
      unfold tagTargetToKey, template in E. simpl in E.
      rewrite !app_nil_r in E. injection E as E.
      apply (split_at_separator colon) in E as [-> ->]; done.
    + unfold tagTargetToKey, template in E. simpl in E.
      rewrite !app_nil_r in E. by injection E as ->.
  - destruct t1, t2; try discriminate.
Qed.

Lemma tagTargetToKey_injective_witness :
  tagTargetToKey (Backup (lit "world1") (lit "2024-01-01"))
  ≠ tagTargetToKey (Backup (lit "world1") (lit "2024-01-02"))
  ∧ tagTargetToKey (Backup (lit "a:b") (lit "c"))
    ≠ tagTargetToKey (Save (lit "a:b:c")).
Proof.
  split.
  - apply (proj1 (tagTargetToKey_injective
                    (Backup (lit "world1") (lit "2024-01-01"))
                    (Backup (lit "world1") (lit "2024-01-02")))).
    + split; compute_done.
    + split; compute_done.
    + discriminate.
  - apply (proj2 (tagTargetToKey_injective
                    (Backup (lit "a:b") (lit "c")) (Save (lit "a:b:c"))));
      reflexivity.
Defined.

(** ** The matcher against the grammar, and [isValidHexColor] *)

Lemma matcher_repeat_unfold (r : Regex) (n : nat) (k : MatchState → bool)
    (x : MatchState) :
  matcher (Repeat r (S n)) k x = matcher r (matcher (Repeat r n) k) x.
Proof. reflexivity. Qed.

Lemma spans_repeat_unfold (r : Regex) (n : nat) (x y : MatchState) :
  spans (Repeat r (S n)) x y ↔ ∃ z, spans r x z ∧ spans (Repeat r n) z y.
Proof. reflexivity. Qed.

(** The matcher succeeds exactly when the pattern spans the input up to
    a state the continuation accepts. *)
Lemma matcher_spec (r : Regex) :
  ∀ k x, matcher r k x = true ↔ ∃ y, spans r x y ∧ k y = true.
Proof.
  induction r as [| | |c|ranges|r IH|r1 IH1 r2 IH2|r1 IH1 r2 IH2|r IH n];
    intros k x.
  - simpl. split; [eauto|]. by intros (y & -> & Hk).
  - simpl. destruct (Nat.eqb_spec (endIndex x) 0) as [E|E].
    + split; [eauto|]. by intros (y & [_ ->] & Hk).
    + split; [done|]. by intros (y & [E' _] & _).
  - simpl. destruct (rest x) as [|c tl] eqn:E.
    + split; [eauto|]. by intros (y & [_ ->] & Hk).
    + split; [done|]. by intros (y & [E' _] & _).
  - simpl. destruct (rest x) as [|c' tl] eqn:E.
    + split; [done|]. by intros (y & (tl & E' & _) & _).
    + destruct (N.eqb_spec c' c) as [->|Hc].
      * split; [eauto|]. intros (y & (tl' & E' & ->) & Hk).
        by injection E' as ->.
      * split; [done|]. intros (y & (tl' & E' & _) & _). congruence.
  - simpl. destruct (rest x) as [|c' tl] eqn:E.
    + split; [done|]. by intros (y & (c & tl & E' & _) & _).
    + destruct (in_ranges ranges c') eqn:Hc.
      * split; [eauto 8|]. intros (y & (c & tl' & E' & _ & ->) & Hk).
        by injection E' as _ ->.
      * split; [done|]. intros (y & (c & tl' & E' & Hc' & _) & _).
        congruence.
  - apply IH.
  - simpl. rewrite IH1. split.
    + intros (z & H1 & H2). apply IH2 in H2 as (y & H2 & Hk). eauto.
    + intros (y & (z & H1 & H2) & Hk). exists z. split; [done|].
      apply IH2. eauto.
  - simpl. destruct (matcher r1 k x) eqn:E1.
    + apply IH1 in E1 as (y & H1 & Hk). split; eauto.
    + rewrite IH2. split.
      * intros (y & H2 & Hk). eauto.
      * intros (y & [H1|H2] & Hk); [|eauto].
        assert (matcher r1 k x = true) by (apply IH1; eauto). congruence.
  - revert k x. induction n as [|n IHn]; intros k x.
    + simpl. split; [eauto|]. by intros (y & -> & Hk).
    + rewrite matcher_repeat_unfold, IH. split.
      * intros (z & H1 & H2). apply IHn in H2 as (y & H2 & Hk).
        exists y. split; [|done]. apply spans_repeat_unfold. eauto.
      * intros (y & H & Hk). apply spans_repeat_unfold in H as (z & H1 & H2).
        exists z. split; [done|]. apply IHn. eauto.
Qed.

(** A pattern that starts with [^] matches at index 0 or nowhere. *)
Lemma exec_from_anchored (r : Regex) (input : jsstring) (index : nat) :
  exec_from (Seq AssertStart r) (S index) input = false.
Proof.
  revert index. induction input as [|c tl IH]; intros index; simpl; [done|].
  apply IH.
Qed.

Lemma test_anchored (r : Regex) (s : jsstring) :
  test (Seq AssertStart r) s = matcher r (λ _, true) (mkState 0 s).
Proof.
  unfold test. destruct s as [|c tl]; simpl.
  - by destruct (matcher r _ _).
  - rewrite exec_from_anchored. by destruct (matcher r _ _).
Qed.

(** [[ranges]{n}] spans exactly [n] code units of the class. *)
Lemma spans_repeat_class (ranges : list (N * N)) (n : nat) :
  ∀ x y, spans (Repeat (Class ranges) n) x y
         ↔ ∃ units, length units = n
                    ∧ Forall (λ c, in_ranges ranges c = true) units
                    ∧ rest x = units ++ rest y
                    ∧ endIndex y = (endIndex x + n)%nat.
Proof.
  induction n as [|n IH]; intros x y.
  - simpl. split.
    + intros ->. exists []. repeat split; [constructor|lia].
    + intros (units & Hl & _ & Hr & Hi).
      apply nil_length_inv in Hl as ->. simpl in Hr.
      destruct x, y; simpl in *. f_equal; [lia|done].
  - rewrite spans_repeat_unfold. split.
    + intros (z & (c & tl & Hx & Hc & ->) & H).
      apply IH in H as (units & Hl & Hall & Hr & Hi). simpl in *.
      exists (c :: units). repeat split.
      * simpl. by rewrite Hl.
      * by constructor.
      * by rewrite Hx, Hr.
      * lia.
    + intros (units & Hl & Hall & Hr & Hi).
      destruct units as [|c units]; [done|].
      injection Hl as Hl. apply Forall_cons in Hall as [Hc Hall].
      exists (advance x (units ++ rest y)). split.
      * exists c, (units ++ rest y). by repeat split.
      * apply IH. exists units. simpl. repeat split; [done..|lia].
Qed.

(** The language of [^#([ranges]{n1}|[ranges]{n2})$]. *)
Lemma test_hash_then_class (ranges : list (N * N)) (n1 n2 : nat)
    (s : jsstring) :
  test (Seq AssertStart
          (Seq (Char (ch "#"))
             (Seq (Group (Alt (Repeat (Class ranges) n1)
                              (Repeat (Class ranges) n2)))
                AssertEnd))) s = true
  ↔ ∃ units, s = ch "#" :: units
             ∧ (length units = n1 ∨ length units = n2)
             ∧ Forall (λ c, in_ranges ranges c = true) units.
Proof.
  rewrite test_anchored, matcher_spec. split.
  - intros (y & (z & (tl & Hs & ->) & (u & Halt & [Hend ->])) & _).
    simpl in Hs. subst s. exists tl. split; [done|].
    assert (∀ n, spans (Repeat (Class ranges) n) (advance (mkState 0 (ch "#" :: tl)) tl) u
                 → length tl = n
                   ∧ Forall (λ c, in_ranges ranges c = true) tl) as Hn.
    { intros n H. apply spans_repeat_class in H as (units & Hl & Hall & Hr & _).
      simpl in Hr. rewrite Hend, app_nil_r in Hr. by subst units. }
    destruct Halt as [H|H]; apply Hn in H as [Hl Hall]; auto.
  - intros (units & -> & Hlen & Hall).
    set (x := advance (mkState 0 (ch "#" :: units)) units).
    set (y := mkState (endIndex x + length units) []).
    assert (spans (Repeat (Class ranges) (length units)) x y) as H.
    { apply spans_repeat_class. exists units.
      repeat split; [done|]. simpl. by rewrite app_nil_r. }
    exists y. split; [|done].
    exists x. split; [by exists units|].
    exists y. split; [|done].
    destruct Hlen as [<-|<-]; [by left|by right].
Qed.

Lemma in_hexDigitClass (c : N) :
  in_ranges [(ch "A", ch "F"); (ch "a", ch "f"); (ch "0", ch "9")] c = true
  ↔ hex_digit c.
Proof.
  unfold in_ranges, hex_digit, ch. simpl.
  rewrite !orb_true_iff, !andb_true_iff, !N.leb_le. lia.
Qed.

Lemma in_specHexDigitClass (c : N) :
  in_ranges [(ch "0", ch "9"); (ch "A", ch "F"); (ch "a", ch "f")] c = true
  ↔ hex_digit c.
Proof.
  unfold in_ranges, hex_digit, ch. simpl.
  rewrite !orb_true_iff, !andb_true_iff, !N.leb_le. lia.
Qed.

Lemma isValidHexColor_shape (s : jsstring) :
  isValidHexColor s = true ↔ hex_color_shape s.
Proof.
  unfold isValidHexColor, hexColorPattern, hexDigitClass.
  rewrite test_hash_then_class. unfold hex_color_shape, hash_then_hex. split.
  - intros (units & -> & Hlen & Hall).
    eapply Forall_impl in Hall; [|intros c; apply in_hexDigitClass].
    destruct Hlen; [right|left]; eauto.
  - intros [(units & -> & Hlen & Hall)|(units & -> & Hlen & Hall)];
      (eapply Forall_impl in Hall; [|intros c; apply in_hexDigitClass]);
      eauto.
Qed.

Lemma specHexColorPattern_shape (s : jsstring) :
  test specHexColorPattern s = true ↔ hex_color_shape s.
Proof.
  unfold specHexColorPattern, specHexDigitClass.
  rewrite test_hash_then_class. unfold hex_color_shape, hash_then_hex. split.
  - intros (units & -> & Hlen & Hall).
    eapply Forall_impl in Hall; [|intros c; apply in_specHexDigitClass].
    destruct Hlen; [left|right]; eauto.
  - intros [(units & -> & Hlen & Hall)|(units & -> & Hlen & Hall)];
      (eapply Forall_impl in Hall; [|intros c; apply in_specHexDigitClass]);
      eauto.
Qed.

Example isValidHexColor_examples :
  map (λ s, isValidHexColor (lit s))
    ["#FFF"; "#3B82F6"; "#abcdef"; "123456"; "#12345"; "#GGG"; "#FFFFFFF";
     " #FFF"; "#FFF "; ""]%string
  = [true; true; true; false; false; false; false; false; false; false].
Proof. reflexivity. Qed.

(** C3. For every string, [isValidHexColor] answers as the pattern
    [^#([0-9A-Fa-f]{3}|[0-9A-Fa-f]{6})$] does, that is, it is true
    exactly for ['#'] followed by exactly 3 or exactly 6 hexadecimal
    digits: no such colour is rejected, and every other string is. *)
Theorem isValidHexColor_iff (s : jsstring) :
  isValidHexColor s = test specHexColorPattern s
  ∧ (isValidHexColor s = true ↔ hex_color_shape s)
  ∧ (isValidHexColor s = false ↔ ¬ hex_color_shape s).
Proof.
  pose proof (isValidHexColor_shape s) as H1.
  pose proof (specHexColorPattern_shape s) as H2.
  split; [|split; [done|]].
  - destruct (isValidHexColor s), (test specHexColorPattern s); try done.
    + symmetry. apply H2, H1. done.
    + apply H1, H2. done.
  - destruct (isValidHexColor s); split; try done.
    + intros H. exfalso. apply H, H1. done.
    + intros _ H. apply H1 in H. done.
Qed.

(** ** [shouldUseLightText] *)

(** NaN absorbs an addition. *)
Lemma add_nan_r (x : float) : (x + nan)%float = nan.
Proof.
  apply Prim2SF_inj. rewrite add_spec.
  change (Prim2SF nan) with S754_nan.
  by destruct (Prim2SF x) as [| | |[] ? ?].
Qed.

(** NaN absorbs a multiplication. *)
Lemma mul_nan_r (x : float) : (x * nan)%float = nan.
Proof.
  apply Prim2SF_inj. rewrite mul_spec.
  change (Prim2SF nan) with S754_nan.
  by destruct (Prim2SF x) as [| | |[] ? ?].
Qed.

(** A luminance with an unparsable blue component is NaN, and NaN is
    below nothing. *)
Lemma luminance_nan_blue (r g : float) :
  (luminance r g nan <? 0.5)%float = false.
Proof.
  unfold luminance. rewrite mul_nan_r, add_nan_r. reflexivity.
Qed.

Lemma parseInt_empty (radix : N) : parseInt [] radix = nan.
Proof.
  unfold parseInt. simpl.
  destruct (negb (radix =? 0) && ((radix <? 2) || (36 <? radix))); [done|].
  by destruct ((radix =? 0) || (radix =? 16)).
Qed.

(** The code units of the hexadecimal digits. *)
Lemma range_enum (lo len c : nat) :
  (lo ≤ c < lo + len)%nat → N.of_nat c ∈ map N.of_nat (seq lo len).
Proof.
  intros H. apply list_elem_of_In, in_map, in_seq. lia.
Qed.

Lemma hex_digit_enum (c : N) :
  hex_digit c →
  c ∈ map N.of_nat (seq 48 10) ++ map N.of_nat (seq 65 6)
      ++ map N.of_nat (seq 97 6).
Proof.
  intros H. unfold hex_digit, ch in H. simpl in H.
  rewrite <- (N2Nat.id c). rewrite !elem_of_app.
  destruct H as [H|[H|H]]; [left|right; left|right; right];
    apply range_enum; lia.
Qed.

Ltac each_hex_digit H :=
  apply hex_digit_enum in H; vm_compute in H;
  repeat (apply elem_of_cons in H as [->|H]);
  [..|by apply elem_of_nil in H].


Lemma replace_leading_hash (s : jsstring) :
  replace (ch "#") [] (ch "#" :: s) = s.
Proof. reflexivity. Qed.

Example parseInt_examples :
  parseInt (lit "ff") 16 = 255%float
  ∧ parseInt (lit "3B") 16 = 59%float
  ∧ parseInt (lit " -0x1F") 16 = (-31)%float
  ∧ parseInt (lit "F") 16 = 15%float
  ∧ parseInt (lit "zz") 16 = nan.
Proof. repeat split; reflexivity. Qed.

(** The default colours: light text on red, blue and gray; dark text
    on orange, yellow, green, purple and pink. *)
Example shouldUseLightText_defaults :
  map (λ c, shouldUseLightText c.2) DEFAULT_TAG_COLORS
  = [true; false; false; false; true; false; false; true].
Proof. reflexivity. Qed.



(** ** [TagPicker]: the guard of the creation form *)

Lemma truthy_nonempty (s : jsstring) : truthy s = true ↔ s ≠ [].
Proof. by destruct s. Qed.

(** C5. On a form submission, [onCreateTag] is invoked only with the
    trimmed name and the chosen colour ([customColor] when it is set,
    [newTagColor] otherwise), and only when that name is not empty and
    that colour satisfies [isValidHexColor]; when the trimmed name is
    empty or the colour is invalid the handler returns without invoking
    it and leaves the form as it is. *)
Theorem handleCreateTag_guards (hasOnCreateTag : bool)
    (st : TagPicker.State) :
  let name := trim (TagPicker.newTagName st) in
  let color := TagPicker.chosenColor st in
  let effects := fst (TagPicker.handleCreateTag hasOnCreateTag st) in
  let st' := snd (TagPicker.handleCreateTag hasOnCreateTag st) in
  color = (if bool_decide (TagPicker.customColor st = [])
           then TagPicker.newTagColor st else TagPicker.customColor st)
  ∧ (∀ n c, (n, c) ∈ TagPicker.created effects →
            n = name ∧ c = color ∧ name ≠ [] ∧ isValidHexColor color = true)
  ∧ (name = [] ∨ isValidHexColor color = false →
     TagPicker.created effects = [] ∧ st' = st)
  ∧ (name ≠ [] → isValidHexColor color = true →
     TagPicker.created effects
     = if hasOnCreateTag then [(name, color)] else []).
Proof.
  intros name color effects st'.
  subst effects st'. unfold TagPicker.handleCreateTag.
  fold name. fold color.
  split; [|split; [|split]].
  - subst color. unfold TagPicker.chosenColor, or_else.
    by destruct (TagPicker.customColor st).
  - intros n c. destruct (truthy name) eqn:Hn; simpl; [|by intros ?%elem_of_nil].
    destruct (isValidHexColor color) eqn:Hc; simpl; [|by intros ?%elem_of_nil].
    destruct hasOnCreateTag; simpl; [|by intros ?%elem_of_nil].
    intros H%list_elem_of_singleton. injection H as -> ->.
    by apply truthy_nonempty in Hn.
  - intros [Hn|Hc].
    + rewrite Hn. done.
    + destruct (truthy name); simpl; [|done]. by rewrite Hc.
  - intros Hn%truthy_nonempty Hc. rewrite Hn, Hc. simpl.
    by destruct hasOnCreateTag.
Qed.

Lemma handleCreateTag_guards_witness :
  TagPicker.created
    (fst (TagPicker.handleCreateTag true
            (TagPicker.mkState true (lit "  ") (lit "#3B82F6") [])))
  = []
  ∧ TagPicker.created
      (fst (TagPicker.handleCreateTag true
              (TagPicker.mkState true (lit "Boss") (lit "#3B82F6")
                 (lit "123456"))))
    = []
  ∧ TagPicker.created
      (fst (TagPicker.handleCreateTag true
              (TagPicker.mkState true (lit " Boss ") (lit "#3B82F6") [])))
    = [(lit "Boss", lit "#3B82F6")].
Proof.
  split; [|split].
  - apply (handleCreateTag_guards true
             (TagPicker.mkState true (lit "  ") (lit "#3B82F6") [])).
    left. reflexivity.
  - apply (handleCreateTag_guards true
             (TagPicker.mkState true (lit "Boss") (lit "#3B82F6")
                (lit "123456"))).
    right. reflexivity.
  - apply (handleCreateTag_guards true
             (TagPicker.mkState true (lit " Boss ") (lit "#3B82F6") []));
      [discriminate|reflexivity].
Defined.

(** ** [TagEditor]: the selected tags *)

Import TagEditor.

Lemma some_named_elem (n : jsstring) (tags : list Tag) :
  some_named n tags = true ↔ n ∈ map name tags.
Proof.
  unfold some_named. induction tags as [|t tags IH]; simpl.
  - split; [done|]. by intros ?%elem_of_nil.
  - rewrite orb_true_iff, IH, elem_of_cons. unfold jsstring_eqb.
    rewrite bool_decide_eq_true. naive_solver.
Qed.

Lemma names_without (n : jsstring) (tags : list Tag) (x : jsstring) :
  x ∈ map name (without n tags) ↔ x ∈ map name tags ∧ x ≠ n.
Proof.
  unfold without. induction tags as [|t tags IH]; simpl.
  - split; [by intros ?%elem_of_nil|]. by intros [?%elem_of_nil _].
  - unfold jsstring_eqb at 1. case_bool_decide as E; simpl.
    + rewrite IH, elem_of_cons. naive_solver.
    + rewrite !elem_of_cons, IH. naive_solver.
Qed.

Lemma without_absent (n : jsstring) (tags : list Tag) :
  n ∉ map name tags → without n tags = tags.
Proof.
  unfold without. induction tags as [|t tags IH]; simpl; [done|].
  intros [Ht Htags]%not_elem_of_cons.
  unfold jsstring_eqb at 1. rewrite bool_decide_eq_false_2 by done.
  simpl. by rewrite IH.
Qed.

Lemma without_NoDup (n : jsstring) (tags : list Tag) :
  NoDup (map name tags) → NoDup (map name (without n tags)).
Proof.
  induction tags as [|t tags IH]; simpl; [done|].
  intros [Ht Htags]%NoDup_cons. unfold jsstring_eqb.
  case_bool_decide; simpl; [by apply IH|].
  apply NoDup_cons. split; [|by apply IH].
  intros [Hin _]%names_without. done.
Qed.

Lemma append_NoDup (tag : Tag) (tags : list Tag) :
  NoDup (map name tags) → name tag ∉ map name tags →
  NoDup (map name (tags ++ [tag])).
Proof.
  intros Hnd Hfresh. rewrite map_app. apply NoDup_app.
  split; [done|]. split; [|apply NoDup_singleton].
  intros x Hx ->%list_elem_of_singleton. done.
Qed.

(** C7. Removing a tag that is not selected leaves the list as it is,
    and removing a name twice gives what removing it once gives. *)
Theorem handleRemoveSelected_idempotent (prev : list Tag)
    (tagName : jsstring) :
  (tagName ∉ map name prev → handleRemoveSelected tagName prev = prev)
  ∧ handleRemoveSelected tagName (handleRemoveSelected tagName prev)
    = handleRemoveSelected tagName prev.
Proof.
  unfold handleRemoveSelected. split; [apply without_absent|].
  apply without_absent. intros [_ H]%names_without. done.
Qed.

Lemma handleRemoveSelected_idempotent_witness :
  handleRemoveSelected (lit "Old")
    [mkTag (lit "Important") (lit "#EF4444")]
  = [mkTag (lit "Important") (lit "#EF4444")].
Proof.
  apply (proj1 (handleRemoveSelected_idempotent
                  [mkTag (lit "Important") (lit "#EF4444")] (lit "Old"))).
  compute_done.
Defined.

Lemma handleTagToggle_NoDup (tag : Tag) (prev : list Tag) :
  NoDup (map name prev) → NoDup (map name (handleTagToggle tag prev)).
Proof.
  intros Hnd. unfold handleTagToggle.
  destruct (some_named (name tag) prev) eqn:E.
  - by apply without_NoDup.
  - apply append_NoDup; [done|]. intros H%some_named_elem. congruence.
Qed.

Section EditorSession.
Context {B Err : Type} `{!Backend B Err}.

Abbreviation EditorWorld := (World B Err TagEditor.State).

(** The functions of the hook touch the hook state only. *)
Lemma with_hook_frame {A} (m : M B Err Hooks.TagsState A) (w : EditorWorld) :
  selectedTags (local (with_hook m w).2) = selectedTags (local w)
  ∧ called (local (with_hook m w).2) = called (local w).
Proof.
  unfold with_hook, zoom. by destruct (m _) as [r v].
Qed.

(** [handleCreateTag] appends the new tag, and only when the list the
    closure captured lacks its name; otherwise the selection stays. *)
Lemma handleCreateTag_selected (captured : list Tag) (n c : jsstring)
    (w : EditorWorld) :
  let w' := (TagEditor.handleCreateTag captured n c w).2 in
  called (local w') = called (local w)
  ∧ (selectedTags (local w') = selectedTags (local w)
     ∨ (some_named n captured = false
        ∧ selectedTags (local w') = selectedTags (local w) ++ [mkTag n c])).
Proof.
  unfold TagEditor.handleCreateTag, try_catch.
  unfold mbind, M_bind, Async.bind.
  pose proof (with_hook_frame (Hooks.createTag n c) w) as [Hs1 Hc1].
  destruct (with_hook (Hooks.createTag n c) w) as [[[]|e] w1];
    simpl in *; [|by auto].
  pose proof (with_hook_frame Hooks.loadAllTags w1) as [Hs2 Hc2].
  destruct (with_hook Hooks.loadAllTags w1) as [[[]|e] w2];
    simpl in *; [|split; [congruence|left; congruence]].
  destruct (some_named n captured); simpl.
  - split; [congruence|left; congruence].
  - split; [congruence|right]. split; [done|congruence].
Qed.

(** X22. On a selection with pairwise-distinct names,
    [handleTagToggle] and [handleRemoveSelected] give one again; so
    does [handleCreateTag] when the selection its closure captured has
    the new name whenever the current selection has it, as it does
    when no update came between the render and the end of the
    handler. *)
Theorem distinct_names_per_handler (prev : list Tag) :
  NoDup (map name prev) →
  (∀ tag, NoDup (map name (handleTagToggle tag prev)))
  ∧ (∀ tagName, NoDup (map name (handleRemoveSelected tagName prev)))
  ∧ (∀ captured n c (w : EditorWorld),
       selectedTags (local w) = prev →
       (some_named n prev = true → some_named n captured = true) →
       NoDup (map name
                (selectedTags
                   (local (TagEditor.handleCreateTag captured n c w).2)))).
Proof.
  intros Hnd. split; [|split].
  - intros tag. by apply handleTagToggle_NoDup.
  - intros tagName. by apply without_NoDup.
  - intros captured n c w Hw Hcap.
    destruct (handleCreateTag_selected captured n c w)
      as [_ [->|[Hfresh ->]]]; rewrite Hw; [done|].
    apply append_NoDup; [done|]. simpl.
    intros H%some_named_elem. apply Hcap in H. congruence.
Qed.

End EditorSession.

(** ** The hooks: resynchronisation and failures *)

Section HookRuns.
Context {B Err : Type} `{!Backend B Err}.
Import Hooks.

Ltac run_hook :=
  unfold finally, try_catch, mbind, mret, M_bind, M_ret, Async.bind,
    Async.ret, call, throw, console_error, setTags, setLoading, setError,
    setOpLoading, setOpError, modify; simpl.

(** [loadAllTags] invokes [get_all_tags_command] once and never throws:
    it stores what the command resolves to, or records the failure and
    keeps the list it had. *)
Lemma loadAllTags_run (w : World B Err TagsState) :
  loadAllTags w
  = match invoke get_all_tags_command (backend w) with
    | (inr allTags, b') =>
        (Returned tt,
         mkWorld b' (invoked w ++ [get_all_tags_command]) (console w)
           (mkTagsState allTags false None))
    | (inl err, b') =>
        (Returned tt,
         mkWorld b' (invoked w ++ [get_all_tags_command])
           (console w ++ [(lit "Failed to load tags:", err)])
           (mkTagsState (tags (local w)) false
              (Some (lit "Failed to load tags"))))
    end.
Proof.
  unfold loadAllTags. run_hook.
  by destruct (invoke get_all_tags_command (backend w)) as [[err|allTags] b'].
Qed.

(** [createTag] and [deleteTag]: when the command resolves the
    function goes on as [loadAllTags] does; when it rejects, the
    failure is logged, recorded in [error] and thrown again. *)
Lemma createTag_run (n col : jsstring) (w : World B Err TagsState) :
  createTag n col w
  = match invoke (create_tag_command n col) (backend w) with
    | (inr _, b1) => loadAllTags (reloading (create_tag_command n col) b1 w)
    | (inl err, b1) =>
        (Thrown err,
         mkWorld b1 (invoked w ++ [create_tag_command n col])
           (console w ++ [(lit "Failed to create tag:", err)])
           (mkTagsState (tags (local w)) false
              (Some (lit "Failed to create tag"))))
    end.
Proof.
  unfold createTag. run_hook.
  destruct (invoke (create_tag_command n col) (backend w)) as [[e|[]] b1];
    simpl; [done|].
  fold (reloading (create_tag_command n col) b1 w).
  rewrite loadAllTags_run.
  by destruct (invoke get_all_tags_command _) as [[err|allTags] b2].
Qed.

Lemma deleteTag_run (n : jsstring) (w : World B Err TagsState) :
  deleteTag n w
  = match invoke (delete_tag_command n) (backend w) with
    | (inr _, b1) => loadAllTags (reloading (delete_tag_command n) b1 w)
    | (inl err, b1) =>
        (Thrown err,
         mkWorld b1 (invoked w ++ [delete_tag_command n])
           (console w ++ [(lit "Failed to delete tag:", err)])
           (mkTagsState (tags (local w)) false
              (Some (lit "Failed to delete tag"))))
    end.
Proof.
  unfold deleteTag. run_hook.
  destruct (invoke (delete_tag_command n) (backend w)) as [[e|[]] b1];
    simpl; [done|].
  fold (reloading (delete_tag_command n) b1 w).
  rewrite loadAllTags_run.
  by destruct (invoke get_all_tags_command _) as [[err|allTags] b2].
Qed.

(** What [loadAllTags] leaves when it starts in [reloading c b1 w]. *)
Lemma reload_run (c : Command) (b1 : B) (w : World B Err TagsState) :
  (loadAllTags (reloading c b1 w)).1 = Returned tt
  ∧ invoked (loadAllTags (reloading c b1 w)).2
    = invoked w ++ [c; get_all_tags_command]
  ∧ loading (local (loadAllTags (reloading c b1 w)).2) = false
  ∧ ∀ allTags b2,
      invoke get_all_tags_command b1 = (inr allTags, b2) →
      tags (local (loadAllTags (reloading c b1 w)).2) = allTags
      ∧ backend (loadAllTags (reloading c b1 w)).2 = b2.
Proof.
  rewrite loadAllTags_run. simpl.
  destruct (invoke get_all_tags_command b1) as [[err|allTags] b2]; simpl;
    rewrite <- app_assoc; (split; [done|split; [done|split; [done|]]]).
  - intros ? ? [=].
  - by intros ? ? [= -> ->].
Qed.

(** What [loadAllTags] leaves when its command rejects in
    [reloading c b1 w]. *)
Lemma reload_rejected (c : Command) (b1 : B) (w : World B Err TagsState)
    (err : Err) (b2 : B) :
  invoke get_all_tags_command b1 = (inl err, b2) →
  tags (local (loadAllTags (reloading c b1 w)).2) = tags (local w)
  ∧ error (local (loadAllTags (reloading c b1 w)).2)
    = Some (lit "Failed to load tags")
  ∧ backend (loadAllTags (reloading c b1 w)).2 = b2.
Proof.
  intros H. rewrite loadAllTags_run. simpl. by rewrite H.
Qed.

(** C6. When the backend command of [createTag] or of [deleteTag]
    resolves, the function goes on as [loadAllTags] does from there:
    [get_all_tags_command] is the next command invoked and the
    function returns, without throwing, only after it.  If that command
    resolves, the [tags] left are its result; if it rejects, [tags] is
    what it was before the call and [error] is the message of
    [loadAllTags]. *)
Theorem mutation_resynchronizes (w : World B Err TagsState) :
  (∀ n col b1,
     invoke (create_tag_command n col) (backend w) = (inr tt, b1) →
     let result := createTag n col w in
     result = loadAllTags (reloading (create_tag_command n col) b1 w)
     ∧ result.1 = Returned tt
     ∧ invoked result.2
       = invoked w ++ [create_tag_command n col; get_all_tags_command]
     ∧ loading (local result.2) = false
     ∧ (∀ allTags b2,
          invoke get_all_tags_command b1 = (inr allTags, b2) →
          tags (local result.2) = allTags ∧ backend result.2 = b2)
     ∧ (∀ err b2,
          invoke get_all_tags_command b1 = (inl err, b2) →
          tags (local result.2) = tags (local w)
          ∧ error (local result.2) = Some (lit "Failed to load tags")
          ∧ backend result.2 = b2))
  ∧ (∀ n b1,
       invoke (delete_tag_command n) (backend w) = (inr tt, b1) →
       let result := deleteTag n w in
       result = loadAllTags (reloading (delete_tag_command n) b1 w)
       ∧ result.1 = Returned tt
       ∧ invoked result.2
         = invoked w ++ [delete_tag_command n; get_all_tags_command]
       ∧ loading (local result.2) = false
       ∧ (∀ allTags b2,
            invoke get_all_tags_command b1 = (inr allTags, b2) →
            tags (local result.2) = allTags ∧ backend result.2 = b2)
       ∧ (∀ err b2,
            invoke get_all_tags_command b1 = (inl err, b2) →
            tags (local result.2) = tags (local w)
            ∧ error (local result.2) = Some (lit "Failed to load tags")
            ∧ backend result.2 = b2)).
Proof.
  split.
  - intros n col b1 H result. subst result.
    rewrite createTag_run, H.
    destruct (reload_run (create_tag_command n col) b1 w)
      as (H1 & H2 & H3 & H4).
    repeat (split; [done|]). intros err b2. apply reload_rejected.
  - intros n b1 H result. subst result.
    rewrite deleteTag_run, H.
    destruct (reload_run (delete_tag_command n) b1 w)
      as (H1 & H2 & H3 & H4).
    repeat (split; [done|]). intros err b2. apply reload_rejected.
Qed.

(** The two reads never throw. *)
Lemma getBackupTags_returns (s bk : jsstring) (w : World B Err OpState) :
  ∃ found, (getBackupTags s bk w).1 = Returned found.
Proof.
  unfold getBackupTags. run_hook.
  destruct (invoke (get_backup_tags_command s bk) (backend w))
    as [[e|found] b1]; simpl; eauto.
Qed.

Lemma getSaveTags_returns (p : jsstring) (w : World B Err OpState) :
  ∃ found, (getSaveTags p w).1 = Returned found.
Proof.
  unfold getSaveTags. run_hook.
  destruct (invoke (get_save_tags_command p) (backend w))
    as [[e|found] b1]; simpl; eauto.
Qed.

Ltac run_rejected H := run_hook; rewrite H; simpl; done.

(** C9. When the backend rejects the command of the operation with
    [err], the reads [getBackupTags] and [getSaveTags] record a message
    and return the empty list (they never throw), while [createTag],
    [deleteTag], [addBackupTags], [removeBackupTags], [addSaveTags] and
    [removeSaveTags] record their message and throw [err] to the
    caller.  When the command of [createTag] or [deleteTag] resolves
    and the reload that follows is rejected with [err], the error is
    not thrown: the message of [loadAllTags] is recorded and the call
    returns. *)
Theorem reads_swallow_mutations_rethrow (err : Err) (b1 : B) :
  (∀ s bk (w : World B Err OpState),
     invoke (get_backup_tags_command s bk) (backend w) = (inl err, b1) →
     (getBackupTags s bk w).1 = Returned []
     ∧ op_error (local (getBackupTags s bk w).2)
       = Some (lit "Failed to get backup tags"))
  ∧ (∀ p (w : World B Err OpState),
       invoke (get_save_tags_command p) (backend w) = (inl err, b1) →
       (getSaveTags p w).1 = Returned []
       ∧ op_error (local (getSaveTags p w).2)
         = Some (lit "Failed to get save tags"))
  ∧ (∀ n col (w : World B Err TagsState),
       invoke (create_tag_command n col) (backend w) = (inl err, b1) →
       (createTag n col w).1 = Thrown err
       ∧ error (local (createTag n col w).2)
         = Some (lit "Failed to create tag"))
  ∧ (∀ n (w : World B Err TagsState),
       invoke (delete_tag_command n) (backend w) = (inl err, b1) →
       (deleteTag n w).1 = Thrown err
       ∧ error (local (deleteTag n w).2)
         = Some (lit "Failed to delete tag"))
  ∧ (∀ s bk names (w : World B Err OpState),
       invoke (add_tags_to_backup_command s bk names) (backend w)
       = (inl err, b1) →
       (addBackupTags s bk names w).1 = Thrown err
       ∧ op_error (local (addBackupTags s bk names w).2)
         = Some (lit "Failed to add backup tags"))
  ∧ (∀ s bk names (w : World B Err OpState),
       invoke (remove_tags_from_backup_command s bk names) (backend w)
       = (inl err, b1) →
       (removeBackupTags s bk names w).1 = Thrown err
       ∧ op_error (local (removeBackupTags s bk names w).2)
         = Some (lit "Failed to remove backup tags"))
  ∧ (∀ p names (w : World B Err OpState),
       invoke (add_tags_to_save_command p names) (backend w)
       = (inl err, b1) →
       (addSaveTags p names w).1 = Thrown err
       ∧ op_error (local (addSaveTags p names w).2)
         = Some (lit "Failed to add save tags"))
  ∧ (∀ p names (w : World B Err OpState),
       invoke (remove_tags_from_save_command p names) (backend w)
       = (inl err, b1) →
       (removeSaveTags p names w).1 = Thrown err
       ∧ op_error (local (removeSaveTags p names w).2)
         = Some (lit "Failed to remove save tags"))
  ∧ (∀ s bk (w : World B Err OpState),
       ∃ found, (getBackupTags s bk w).1 = Returned found)
  ∧ (∀ p (w : World B Err OpState),
       ∃ found, (getSaveTags p w).1 = Returned found)
  ∧ (∀ n col (w : World B Err TagsState) b0,
       invoke (create_tag_command n col) (backend w) = (inr tt, b0) →
       invoke get_all_tags_command b0 = (inl err, b1) →
       (createTag n col w).1 = Returned tt
       ∧ error (local (createTag n col w).2)
         = Some (lit "Failed to load tags"))
  ∧ (∀ n (w : World B Err TagsState) b0,
       invoke (delete_tag_command n) (backend w) = (inr tt, b0) →
       invoke get_all_tags_command b0 = (inl err, b1) →
       (deleteTag n w).1 = Returned tt
       ∧ error (local (deleteTag n w).2)
         = Some (lit "Failed to load tags")).
Proof.
  repeat apply conj;
    [..|apply getBackupTags_returns|apply getSaveTags_returns
    |intros n col w b0 H0 H; rewrite createTag_run, H0, loadAllTags_run;
     simpl; by rewrite H
    |intros n w b0 H0 H; rewrite deleteTag_run, H0, loadAllTags_run;
     simpl; by rewrite H].
  - intros s bk w H. unfold getBackupTags. run_rejected H.
  - intros p w H. unfold getSaveTags. run_rejected H.
  - intros n col w H. rewrite createTag_run, H. done.
  - intros n w H. rewrite deleteTag_run, H. done.
  - intros s bk names w H. unfold addBackupTags. run_rejected H.
  - intros s bk names w H. unfold removeBackupTags. run_rejected H.
  - intros p names w H. unfold addSaveTags. run_rejected H.
  - intros p names w H. unfold removeSaveTags. run_rejected H.
Qed.

End HookRuns.

(** ** The tag store: referential integrity *)

Section StoreProperties.
Context {Disk : Type} {persistence : TagStore.Persistence Disk}.
Import TagStore.

Lemma exists_elem (n : jsstring) (reg : Registry.t) :
  Registry.exists_ n reg = true ↔ n ∈ map name reg.
Proof. apply some_named_elem. Qed.

Lemma create_keeps (n c : jsstring) (reg reg' : Registry.t) (x : jsstring) :
  Registry.create n c reg = inr reg' →
  Registry.exists_ x reg = true → Registry.exists_ x reg' = true.
Proof.
  unfold Registry.create. intros H Hx.
  destruct (Registry.exists_ n reg); [done|].
  destruct (negb (isValidHexColor c)); [done|].
  destruct (negb (truthy (trim n))); [done|].
  injection H as <-. apply exists_elem. rewrite map_app, elem_of_app.
  left. by apply exists_elem.
Qed.

Lemma delete_exists (n : jsstring) (reg reg' : Registry.t) (x : jsstring) :
  Registry.delete n reg = inr reg' →
  Registry.exists_ x reg' = true ↔ Registry.exists_ x reg = true ∧ x ≠ n.
Proof.
  unfold Registry.delete. destruct (Registry.exists_ n reg); [|done].
  intros [= <-]. rewrite !exists_elem. apply (names_without n reg x).
Qed.

Lemma tagsFor_removeTagEverywhere (n T : jsstring) (idx : Index.t) :
  Index.tagsFor T (Index.removeTagEverywhere n idx)
  = Index.tagsFor T idx ∖ {[n]}.
Proof.
  unfold Index.tagsFor, Index.removeTagEverywhere. rewrite lookup_fmap.
  destruct (idx !! T); simpl; [done|]. set_solver.
Qed.

Lemma tagsFor_add (key n T : jsstring) (idx : Index.t) (x : jsstring) :
  x ∈ Index.tagsFor T (Index.add key n idx)
  ↔ x ∈ Index.tagsFor T idx ∨ (T = key ∧ x = n).
Proof.
  unfold Index.add, Index.tagsFor. destruct (decide (key = T)) as [->|Hne].
  - rewrite lookup_insert_eq. simpl. set_solver.
  - rewrite lookup_insert_ne by done. naive_solver.
Qed.

Lemma tagsFor_remove (key n T : jsstring) (idx : Index.t) (x : jsstring) :
  x ∈ Index.tagsFor T (Index.remove key n idx) → x ∈ Index.tagsFor T idx.
Proof.
  unfold Index.remove, Index.tagsFor.
  destruct (idx !! key) as [names|] eqn:E; [|done].
  destruct (decide (key = T)) as [->|Hne].
  - rewrite lookup_insert_eq, E. simpl. set_solver.
  - by rewrite lookup_insert_ne.
Qed.

Lemma tagsFor_add_all (key T : jsstring) (names : list jsstring)
    (idx : Index.t) (x : jsstring) :
  x ∈ Index.tagsFor T (foldr (Index.add key) idx names) →
  x ∈ Index.tagsFor T idx ∨ x ∈ names.
Proof.
  induction names as [|n names IH]; simpl; [auto|].
  intros [H|[_ ->]]%tagsFor_add.
  - destruct (IH H); [auto|]. right. by right.
  - right. left.
Qed.

Lemma tagsFor_remove_all (key T : jsstring) (names : list jsstring)
    (idx : Index.t) (x : jsstring) :
  x ∈ Index.tagsFor T (foldr (Index.remove key) idx names) →
  x ∈ Index.tagsFor T idx.
Proof.
  induction names as [|n names IH]; simpl; [done|].
  intros H%tagsFor_remove. by apply IH.
Qed.

Lemma elem_of_targetsFor (n T : jsstring) (idx : Index.t) :
  T ∈ Index.targetsFor n idx ↔ n ∈ Index.tagsFor T idx.
Proof.
  unfold Index.targetsFor, Index.tagsFor.
  rewrite elem_of_dom. unfold is_Some.
  setoid_rewrite map_lookup_filter_Some. simpl.
  destruct (idx !! T) as [names|]; simpl.
  - split; [by intros (? & [= <-] & ?)|eauto].
  - split; [by intros (? & ? & ?)|set_solver].
Qed.

(** A write that succeeds installs the new database; one that fails
    leaves the store as it was. *)
Lemma commit_db (db' : TagsDatabase) (st : Store Disk) :
  db (commit db' st).2 = db' ∨ (commit db' st).2 = st.
Proof.
  unfold commit. destruct (save db' (disk st)); simpl; auto.
Qed.

Lemma commit_ok (db' : TagsDatabase) (st st' : Store Disk) :
  commit db' st = (inr tt, st') → db st' = db'.
Proof.
  unfold commit. destruct (save db' (disk st)); [|done]. by intros [= <-].
Qed.

(** C1. Every command of the store keeps referential integrity: a tag
    name that appears in an association is in the registry.  And when
    [deleteTag n] succeeds, [n] is neither in the registry nor in the
    association set of any target: [targetsFor n] is empty and
    [exists n] is false. *)
Theorem referential_integrity_maintained (st : Store Disk) :
  (integrity (db st) → ∀ c, integrity (db (invoke c st).2))
  ∧ (∀ n st',
       deleteTag n st = (inr tt, st') →
       Registry.exists_ n (registry (db st')) = false
       ∧ Index.targetsFor n (index (db st')) = ∅
       ∧ ∀ T, n ∉ Index.tagsFor T (index (db st'))).
Proof.
  split.
  - intros Hint c.
    assert (∀ db', integrity db' → integrity (db (commit db' st).2)) as Hcommit.
    { intros db' H. by destruct (commit_db db' st) as [-> | ->]. }
    destruct c as [|n c|n|s b|s b names|s b names|p|p names|p names];
      unfold invoke, command_surface; simpl; try done.
    + unfold createTag.
      destruct (Registry.create n c (registry (db st))) as [e|reg'] eqn:E;
        [done|].
      apply Hcommit. intros T x Hx. simpl in *.
      eapply create_keeps; [done|]. by apply (Hint T).
    + unfold deleteTag.
      destruct (Registry.delete n (registry (db st))) as [e|reg'] eqn:E;
        [done|].
      apply Hcommit. intros T x Hx. simpl in *.
      rewrite tagsFor_removeTagEverywhere in Hx.
      apply elem_of_difference in Hx as [Hx Hne].
      eapply delete_exists; [done|]. split; [by apply (Hint T)|set_solver].
    + unfold addTagsToTarget.
      destruct (forallb _ names) eqn:E; [|done].
      apply Hcommit. intros T x Hx. simpl in *.
      apply tagsFor_add_all in Hx as [Hx|Hx]; [by apply (Hint T)|].
      rewrite forallb_forall in E. apply E. by apply list_elem_of_In.
    + unfold removeTagsFromTarget.
      apply Hcommit. intros T x Hx. simpl in *.
      apply tagsFor_remove_all in Hx. by apply (Hint T).
    + unfold addTagsToTarget.
      destruct (forallb _ names) eqn:E; [|done].
      apply Hcommit. intros T x Hx. simpl in *.
      apply tagsFor_add_all in Hx as [Hx|Hx]; [by apply (Hint T)|].
      rewrite forallb_forall in E. apply E. by apply list_elem_of_In.
    + unfold removeTagsFromTarget.
      apply Hcommit. intros T x Hx. simpl in *.
      apply tagsFor_remove_all in Hx. by apply (Hint T).
  - intros n st'. unfold deleteTag.
    destruct (Registry.delete n (registry (db st))) as [e|reg'] eqn:E;
      [done|].
    intros ->%commit_ok. simpl.
    assert (∀ T, n ∉ Index.tagsFor T
                       (Index.removeTagEverywhere n (index (db st)))) as Hnone.
    { intros T. rewrite tagsFor_removeTagEverywhere. set_solver. }
    split; [|split; [|done]].
    + destruct (Registry.exists_ n reg') eqn:Hn; [|done].
      eapply delete_exists in Hn as [_ Hn]; done.
    + apply leibniz_equiv, elem_of_equiv_empty. intros T.
      rewrite elem_of_targetsFor. apply Hnone.
Qed.

End StoreProperties.

(** ** The scenario *)

Import Scenario.

(** The scenario of the document, through the hooks' commands: the
    save carries the tag after it is added, and nothing after the tag
    is deleted. *)
Example scenario_getSaveTags :
  TagStore.getTagsFor (Save (lit "world1")) store1 = [important]
  ∧ (TagStore.deleteTag (lit "Important") store1).1 = inr tt
  ∧ TagStore.getTagsFor (Save (lit "world1"))
      (TagStore.deleteTag (lit "Important") store1).2 = [].
Proof. repeat split; reflexivity. Qed.

Example scenario_createTag_rejections :
  (TagStore.createTag [] (lit "#FFFFFF") store0).1 = inl TagStore.EmptyName
  ∧ (TagStore.createTag (lit "Boss") (lit "123456") store0).1
    = inl TagStore.InvalidColor
  ∧ (TagStore.createTag (lit "Important") (lit "#FFFFFF") store0).1
    = inl TagStore.DuplicateTag.
Proof. repeat split; reflexivity. Qed.

Lemma referential_integrity_maintained_witness :
  TagStore.integrity (TagStore.db store1)
  ∧ TagStore.Registry.exists_ (lit "Important")
      (TagStore.registry (TagStore.db (TagStore.deleteTag (lit "Important") store1).2))
    = false
  ∧ TagStore.Index.targetsFor (lit "Important")
      (TagStore.index (TagStore.db (TagStore.deleteTag (lit "Important") store1).2))
    = ∅.
Proof.
  split.
  - apply (proj1 (referential_integrity_maintained store0)).
    intros T N H. by apply elem_of_empty in H.
  - destruct (proj2 (referential_integrity_maintained store1)
                (lit "Important")
                (TagStore.deleteTag (lit "Important") store1).2)
      as (H1 & H2 & _); [reflexivity|]. by split.
Defined.

Lemma mutation_resynchronizes_witness :
  Hooks.tags
    (local (Hooks.createTag (lit "Boss") (lit "#22C55E") hook0).2)
  = [important; boss]
  ∧ invoked (Hooks.createTag (lit "Boss") (lit "#22C55E") hook0).2
    = [create_tag_command (lit "Boss") (lit "#22C55E");
       get_all_tags_command]
  ∧ Hooks.error
      (local (Hooks.createTag (lit "Boss") (lit "#22C55E") last_answer).2)
    = Some (lit "Failed to load tags").
Proof.
  destruct (proj1 (mutation_resynchronizes hook0)
              (lit "Boss") (lit "#22C55E") store2)
    as (_ & _ & Htrace & _ & Htags & _); [reflexivity|].
  destruct (proj1 (mutation_resynchronizes last_answer)
              (lit "Boss") (lit "#22C55E") (0%nat, [important; boss]))
    as (_ & _ & _ & _ & _ & Hrej); [reflexivity|].
  split; [|split; [exact Htrace|]].
  - apply (Htags [important; boss] store2). reflexivity.
  - apply (Hrej (lit "backend unreachable") (0%nat, [important; boss])).
    reflexivity.
Defined.

(** C6, the claim as it was worded: [deleteTag("Important")] on a
    backend that answers the deletion and then becomes unreachable.
    The command resolves, [loadAllTags] is invoked and calls
    [get_all_tags_command], the call returns; yet [tags] still lists
    the deleted tag, which the backend no longer has. *)
Lemma deleteTag_keeps_stale_tags :
  (invoke (delete_tag_command (lit "Important")) (backend last_answer)).1
  = inr tt
  ∧ (Hooks.deleteTag (lit "Important") last_answer).1 = Returned tt
  ∧ invoked (Hooks.deleteTag (lit "Important") last_answer).2
    = [delete_tag_command (lit "Important"); get_all_tags_command]
  ∧ Hooks.tags (local (Hooks.deleteTag (lit "Important") last_answer).2)
    = [important]
  ∧ (backend (Hooks.deleteTag (lit "Important") last_answer).2).2 = []
  ∧ Hooks.tags (local (Hooks.deleteTag (lit "Important") last_answer).2)
    ≠ (backend (Hooks.deleteTag (lit "Important") last_answer).2).2.
Proof. repeat split; try reflexivity. discriminate. Qed.

Lemma reads_swallow_mutations_rethrow_witness :
  (Hooks.getBackupTags (lit "world1") (lit "2024-01-01") offline_ops).1
  = Returned []
  ∧ (Hooks.getSaveTags (lit "world1") offline_ops).1 = Returned []
  ∧ (Hooks.createTag (lit "Boss") (lit "#22C55E") offline_tags).1
    = Thrown (lit "backend unreachable")
  ∧ (Hooks.addSaveTags (lit "world1") [lit "Important"] offline_ops).1
    = Thrown (lit "backend unreachable")
  ∧ (Hooks.deleteTag (lit "Important") last_answer).1 = Returned tt.
Proof.
  destruct (reads_swallow_mutations_rethrow (lit "backend unreachable") tt)
    as (Hgb & Hgs & Hc & _ & _ & _ & Has & _).
  destruct (reads_swallow_mutations_rethrow (lit "backend unreachable")
              (0%nat, @nil Tag))
    as (_ & _ & _ & _ & _ & _ & _ & _ & _ & _ & _ & Hd).
  split; [|split; [|split; [|split]]].
  - apply (Hgb (lit "world1") (lit "2024-01-01") offline_ops). reflexivity.
  - apply (Hgs (lit "world1") offline_ops). reflexivity.
  - apply (Hc (lit "Boss") (lit "#22C55E") offline_tags). reflexivity.
  - apply (Has (lit "world1") [lit "Important"] offline_ops). reflexivity.
  - apply (Hd (lit "Important") last_answer (0%nat, @nil Tag));
      reflexivity.
Defined.

(** C9, the claim as it was worded: [createTag("Boss", "#22C55E")] on a
    backend that answers the creation and then becomes unreachable.
    The reload meets a backend error, and [createTag] does not throw
    it: the call returns, with the message of [loadAllTags]. *)
Lemma createTag_swallows_reload_error :
  (invoke get_all_tags_command
     (invoke (create_tag_command (lit "Boss") (lit "#22C55E"))
        (backend last_answer)).2).1
  = inl (lit "backend unreachable")
  ∧ invoked (Hooks.createTag (lit "Boss") (lit "#22C55E") last_answer).2
    = [create_tag_command (lit "Boss") (lit "#22C55E");
       get_all_tags_command]
  ∧ (Hooks.createTag (lit "Boss") (lit "#22C55E") last_answer).1
    = Returned tt
  ∧ (Hooks.createTag (lit "Boss") (lit "#22C55E") last_answer).1
    ≠ Thrown (lit "backend unreachable")
  ∧ Hooks.error
      (local (Hooks.createTag (lit "Boss") (lit "#22C55E") last_answer).2)
    = Some (lit "Failed to load tags").
Proof. repeat split; try reflexivity. discriminate. Qed.

(** C10.  The dialog is open with nothing selected, so the names are
    pairwise distinct.  ["Boss"] is created from the form and, while
    [handleCreateTag] awaits the backend, the tag is clicked in the
    picker.  The handler then tests the empty list its closure
    captured and appends the tag again: the selection is
    [[boss; boss]], and a save passes ["Boss"] twice to [onSave]. *)
Theorem stale_closure_duplicates :
  let w := TagEditor.createOvertakenByToggle boss editor_empty in
  NoDup (map name (TagEditor.selectedTags (local editor_empty)))
  ∧ TagEditor.selectedTags (local w) = [boss; boss]
  ∧ ¬ NoDup (map name (TagEditor.selectedTags (local w)))
  ∧ TagEditor.called
      (local (TagEditor.handleSave onSave_ok
                (TagEditor.selectedTags (local w)) w).2)
    = [TagEditor.OnSave [lit "Boss"; lit "Boss"]; TagEditor.OnCancel].
Proof.
  cbv zeta. split; [constructor|]. split; [reflexivity|].
  split; [|reflexivity].
  change (TagEditor.selectedTags
            (local (TagEditor.createOvertakenByToggle boss editor_empty)))
    with [boss; boss].
  simpl. intros [H _]%NoDup_cons. apply H. left.
Qed.

Lemma distinct_names_per_handler_witness :
  NoDup (map name (TagEditor.handleTagToggle boss [important]))
  ∧ NoDup (map name
             (TagEditor.selectedTags
                (local (TagEditor.handleCreateTag [important] (lit "Boss")
                          (lit "#22C55E") editor0).2))).
Proof.
  destruct (distinct_names_per_handler (B := TagStore.Store (nat * TagStore.TagsDatabase))
              (Err := TagStore.Error) [important])
    as (Ht & _ & Hc); [compute_done|].
  split; [apply Ht|].
  apply (Hc [important] (lit "Boss") (lit "#22C55E") editor0);
    [reflexivity|discriminate].
Defined.

(** * Further properties of the code *)

(** ** Target keys: what the encoding needs, and what it loses *)

(** X1. Only the [saveName] fields have to be free of [':'] for distinct
    targets to get distinct keys; [backupName] and [relativePath] may
    hold any code unit. *)
Theorem tagTargetToKey_needs_saveName_only (t1 t2 : TagTarget) :
  (∀ s b, t1 = Backup s b → colon ∉ s) →
  (∀ s b, t2 = Backup s b → colon ∉ s) →
  t1 ≠ t2 → tagTargetToKey t1 ≠ tagTargetToKey t2.
Proof.
  intros H1 H2 Hne E. apply Hne. clear Hne.
  destruct t1 as [s1 b1|p1], t2 as [s2 b2|p2]; try discriminate E.
  - unfold tagTargetToKey, template in E. simpl in E.
    rewrite !app_nil_r in E. injection E as E.
    apply (split_at_separator colon) in E as [-> ->]; eauto.
  - unfold tagTargetToKey, template in E. simpl in E.
    rewrite !app_nil_r in E. by injection E as ->.
Qed.

Lemma tagTargetToKey_needs_saveName_only_witness :
  tagTargetToKey (Backup (lit "world1") (lit "12:30:05"))
  ≠ tagTargetToKey (Backup (lit "world1") (lit "12:30:06")).
Proof.
  apply (tagTargetToKey_needs_saveName_only
           (Backup (lit "world1") (lit "12:30:05"))
           (Backup (lit "world1") (lit "12:30:06")));
    [intros s b [= <- _]; compute_done..|discriminate].
Defined.

(** X2. A [':'] in a save name moves to the backup name without changing
    the key: the two backups are different targets with one key. *)
Theorem tagTargetToKey_separator_ambiguity (s m b : jsstring) :
  Backup (s ++ colon :: m) b ≠ Backup s (m ++ colon :: b)
  ∧ tagTargetToKey (Backup (s ++ colon :: m) b)
    = tagTargetToKey (Backup s (m ++ colon :: b)).
Proof.
  split.
  - intros [= E _]. apply (f_equal length) in E.
    rewrite length_app in E. simpl in E. lia.
  - unfold tagTargetToKey, template. simpl.
    rewrite !app_nil_r, <- !app_assoc. reflexivity.
Qed.

(** ** [shouldUseLightText] outside the 6-digit colours *)

Lemma add_nan_l (x : float) : (nan + x)%float = nan.
Proof.
  apply Prim2SF_inj. rewrite add_spec.
  change (Prim2SF nan) with S754_nan. reflexivity.
Qed.

(** One unparsable channel makes the comparison fail. *)
Lemma luminance_nan_channel (r g b : float) :
  r = nan ∨ g = nan ∨ b = nan → (luminance r g b <? 0.5)%float = false.
Proof.
  intros [->|[->| ->]]; unfold luminance.
  - by rewrite mul_nan_r, !add_nan_l.
  - by rewrite mul_nan_r, add_nan_r, add_nan_l.
  - apply luminance_nan_blue.
Qed.

Lemma replace_shorter (c : N) (s : jsstring) :
  (length (replace c [] s) ≤ length s)%nat.
Proof.
  induction s as [|x s IH]; simpl; [done|].
  destruct (x =? c); simpl; lia.
Qed.

Lemma replace_absent (c : N) (r s : jsstring) :
  c ∉ s → replace c r s = s.
Proof.
  induction s as [|x s IH]; simpl; [done|].
  intros [Hx Hs]%not_elem_of_cons.
  destruct (N.eqb_spec x c) as [->|_]; [done|]. by rewrite IH.
Qed.

(** X3. Dark text is the answer whenever a channel does not parse; this is
    so for every string that keeps at most four code units once its
    first ['#'] is removed: the empty string, ["#"], the 3- and 4-digit
    colours, short colour names. *)
Theorem shouldUseLightText_unparsable (s : jsstring) :
  let hex := replace (ch "#") [] s in
  (parseInt (substring hex 0 2) 16 = nan
   ∨ parseInt (substring hex 2 4) 16 = nan
   ∨ parseInt (substring hex 4 6) 16 = nan →
   shouldUseLightText s = false)
  ∧ ((length s ≤ 4)%nat → shouldUseLightText s = false)
  ∧ (∀ t, s = ch "#" :: t → (length t ≤ 4)%nat →
          shouldUseLightText s = false).
Proof.
  intros hex.
  assert ((length hex ≤ 4)%nat → shouldUseLightText s = false) as Hshort.
  { intros Hlen. unfold shouldUseLightText. fold hex.
    apply luminance_nan_channel. right. right.
    unfold substring. simpl.
    rewrite (skipn_all2 hex) by done. apply parseInt_empty. }
  split; [|split].
  - intros H. unfold shouldUseLightText. by apply luminance_nan_channel.
  - intros Hlen. apply Hshort. subst hex.
    pose proof (replace_shorter (ch "#") s). lia.
  - intros t -> Hlen. apply Hshort. subst hex.
    by rewrite replace_leading_hash.
Qed.

Lemma shouldUseLightText_unparsable_witness :
  shouldUseLightText (lit "red") = false
  ∧ shouldUseLightText (lit "#0000") = false
  ∧ shouldUseLightText (lit "white") = false.
Proof.
  split; [|split].
  - apply (shouldUseLightText_unparsable (lit "red")). simpl. lia.
  - apply (proj2 (proj2 (shouldUseLightText_unparsable (lit "#0000")))
             (lit "0000")); [reflexivity|simpl; lia].
  - apply (proj1 (shouldUseLightText_unparsable (lit "white"))).
    left. reflexivity.
Defined.

(** X4. The leading ['#'] is optional: a string without ['#'] gets the
    answer the same string gets with ['#'] in front. *)
Theorem shouldUseLightText_hash_optional (s : jsstring) :
  ch "#" ∉ s → shouldUseLightText (ch "#" :: s) = shouldUseLightText s.
Proof.
  intros H. unfold shouldUseLightText.
  by rewrite replace_leading_hash, replace_absent.
Qed.

Lemma shouldUseLightText_hash_optional_witness :
  shouldUseLightText (lit "#3B82F6") = shouldUseLightText (lit "3B82F6").
Proof.
  apply (shouldUseLightText_hash_optional (lit "3B82F6")). compute_done.
Defined.

(** X5. On the greys [#vvvvvv] the text is light exactly below mid-grey:
    for the values 0 to 127 of the repeated channel. *)
Theorem shouldUseLightText_grey_threshold (hi lo : N) :
  hex_digit hi → hex_digit lo →
  shouldUseLightText [ch "#"; hi; lo; hi; lo; hi; lo]
  = (16 * hex_value hi + hex_value lo <? 128).
Proof.
  intros Hhi Hlo. each_hex_digit Hhi; each_hex_digit Hlo; reflexivity.
Qed.

Lemma shouldUseLightText_grey_threshold_witness :
  shouldUseLightText (lit "#7f7f7f") = true
  ∧ shouldUseLightText (lit "#808080") = false.
Proof.
  split.
  - apply (shouldUseLightText_grey_threshold (ch "7") (ch "f"));
      compute_done.
  - apply (shouldUseLightText_grey_threshold (ch "8") (ch "0"));
      compute_done.
Defined.

(** ** The hooks: what every call leaves behind *)

Section HookOutcomes.
Context {B Err : Type} `{!Backend B Err}.
Import Hooks.

Ltac unfold_hook :=
  unfold finally, try_catch, mbind, mret, M_bind, M_ret, Async.bind,
    Async.ret, call, throw, console_error, setTags, setLoading, setError,
    setOpLoading, setOpError, modify; simpl.

(** X6. [loadAllTags] never throws and invokes [get_all_tags_command]
    once.  When the command resolves, [tags] is its result and [error]
    is cleared; when it rejects, [tags] is kept, the failure is logged
    and [error] is set.  [loading] is released either way. *)
Theorem loadAllTags_settles (w : World B Err TagsState) :
  (loadAllTags w).1 = Returned tt
  ∧ loading (local (loadAllTags w).2) = false
  ∧ invoked (loadAllTags w).2 = invoked w ++ [get_all_tags_command]
  ∧ backend (loadAllTags w).2 = (invoke get_all_tags_command (backend w)).2
  ∧ match (invoke get_all_tags_command (backend w)).1 with
    | inr allTags =>
        tags (local (loadAllTags w).2) = allTags
        ∧ error (local (loadAllTags w).2) = None
        ∧ console (loadAllTags w).2 = console w
    | inl err =>
        tags (local (loadAllTags w).2) = tags (local w)
        ∧ error (local (loadAllTags w).2) = Some (lit "Failed to load tags")
        ∧ console (loadAllTags w).2
          = console w ++ [(lit "Failed to load tags:", err)]
    end.
Proof.
  rewrite loadAllTags_run.
  by destruct (invoke get_all_tags_command (backend w)) as [[err|allTags] b'].
Qed.

(** X7. No function of the three hooks leaves [loading] set, whether it
    returns or throws. *)
Theorem hooks_release_loading :
  (∀ (w : World B Err TagsState),
     loading (local (loadAllTags w).2) = false
     ∧ (∀ n col, loading (local (createTag n col w).2) = false)
     ∧ (∀ n, loading (local (deleteTag n w).2) = false))
  ∧ (∀ (w : World B Err OpState),
       (∀ s bk, op_loading (local (getBackupTags s bk w).2) = false)
       ∧ (∀ s bk names,
            op_loading (local (addBackupTags s bk names w).2) = false)
       ∧ (∀ s bk names,
            op_loading (local (removeBackupTags s bk names w).2) = false)
       ∧ (∀ p, op_loading (local (getSaveTags p w).2) = false)
       ∧ (∀ p names, op_loading (local (addSaveTags p names w).2) = false)
       ∧ (∀ p names,
            op_loading (local (removeSaveTags p names w).2) = false)).
Proof.
  assert (∀ v : World B Err TagsState,
            loading (local (loadAllTags v).2) = false) as Hload.
  { intros v. rewrite loadAllTags_run.
    by destruct (invoke get_all_tags_command (backend v)) as [[e|l] b1]. }
  split.
  - intros w. split; [apply Hload|split].
    + intros n col. rewrite createTag_run.
      destruct (invoke (create_tag_command n col) (backend w))
        as [[e|[]] b1]; [done|apply Hload].
    + intros n. rewrite deleteTag_run.
      destruct (invoke (delete_tag_command n) (backend w))
        as [[e|[]] b1]; [done|apply Hload].
  - intros w. repeat apply conj; intros;
      [unfold getBackupTags|unfold addBackupTags|unfold removeBackupTags
      |unfold getSaveTags|unfold addSaveTags|unfold removeSaveTags];
      unfold_hook;
      by destruct (invoke _ (backend w)) as [[e|v] b1].
Qed.

(** X8. A [createTag] or [deleteTag] whose command rejects does not reload:
    its command is the only one invoked, [tags] is what it was, and the
    failure is logged once. *)
Theorem failed_mutation_keeps_tags (w : World B Err TagsState) (err : Err)
    (b1 : B) :
  (∀ n col,
     invoke (create_tag_command n col) (backend w) = (inl err, b1) →
     tags (local (createTag n col w).2) = tags (local w)
     ∧ invoked (createTag n col w).2
       = invoked w ++ [create_tag_command n col]
     ∧ console (createTag n col w).2
       = console w ++ [(lit "Failed to create tag:", err)]
     ∧ backend (createTag n col w).2 = b1)
  ∧ (∀ n,
       invoke (delete_tag_command n) (backend w) = (inl err, b1) →
       tags (local (deleteTag n w).2) = tags (local w)
       ∧ invoked (deleteTag n w).2 = invoked w ++ [delete_tag_command n]
       ∧ console (deleteTag n w).2
         = console w ++ [(lit "Failed to delete tag:", err)]
       ∧ backend (deleteTag n w).2 = b1).
Proof.
  split.
  - intros n col H. by rewrite createTag_run, H.
  - intros n H. by rewrite deleteTag_run, H.
Qed.

(** X9. A read whose command resolves returns the list the backend
    answered, clears [error] (also one left by an earlier call), logs
    nothing and has invoked that one command. *)
Theorem reads_return_answer (w : World B Err OpState) (found : list Tag)
    (b1 : B) :
  (∀ s bk,
     invoke (get_backup_tags_command s bk) (backend w) = (inr found, b1) →
     getBackupTags s bk w
     = (Returned found,
        mkWorld b1 (invoked w ++ [get_backup_tags_command s bk]) (console w)
          (mkOpState false None)))
  ∧ (∀ p,
       invoke (get_save_tags_command p) (backend w) = (inr found, b1) →
       getSaveTags p w
       = (Returned found,
          mkWorld b1 (invoked w ++ [get_save_tags_command p]) (console w)
            (mkOpState false None))).
Proof.
  split.
  - intros s bk H. unfold getBackupTags. unfold_hook. by rewrite H.
  - intros p H. unfold getSaveTags. unfold_hook. by rewrite H.
Qed.

(** X10. An add or remove whose command resolves returns, clears [error],
    logs nothing and has invoked that one command. *)
Theorem association_updates_resolve (w : World B Err OpState) (b1 : B) :
  let done (c : Command) : Outcome Err unit * World B Err OpState :=
    (Returned tt,
     mkWorld b1 (invoked w ++ [c]) (console w) (mkOpState false None)) in
  (∀ s bk names,
     invoke (add_tags_to_backup_command s bk names) (backend w)
     = (inr tt, b1) →
     addBackupTags s bk names w
     = done (add_tags_to_backup_command s bk names))
  ∧ (∀ s bk names,
       invoke (remove_tags_from_backup_command s bk names) (backend w)
       = (inr tt, b1) →
       removeBackupTags s bk names w
       = done (remove_tags_from_backup_command s bk names))
  ∧ (∀ p names,
       invoke (add_tags_to_save_command p names) (backend w)
       = (inr tt, b1) →
       addSaveTags p names w = done (add_tags_to_save_command p names))
  ∧ (∀ p names,
       invoke (remove_tags_from_save_command p names) (backend w)
       = (inr tt, b1) →
       removeSaveTags p names w
       = done (remove_tags_from_save_command p names)).
Proof.
  intros done. subst done. repeat apply conj; intros;
    [unfold addBackupTags|unfold removeBackupTags
    |unfold addSaveTags|unfold removeSaveTags];
    unfold_hook; by rewrite H.
Qed.

(** X11. Whatever the backend answers, each function of [useBackupTags] and
    [useSaveTags] invokes its own command, with the arguments it was
    given, and no other. *)
Theorem association_hooks_invoke_once (w : World B Err OpState) :
  (∀ s bk, invoked (getBackupTags s bk w).2
           = invoked w ++ [get_backup_tags_command s bk])
  ∧ (∀ s bk names,
       invoked (addBackupTags s bk names w).2
       = invoked w ++ [add_tags_to_backup_command s bk names])
  ∧ (∀ s bk names,
       invoked (removeBackupTags s bk names w).2
       = invoked w ++ [remove_tags_from_backup_command s bk names])
  ∧ (∀ p, invoked (getSaveTags p w).2
          = invoked w ++ [get_save_tags_command p])
  ∧ (∀ p names,
       invoked (addSaveTags p names w).2
       = invoked w ++ [add_tags_to_save_command p names])
  ∧ (∀ p names,
       invoked (removeSaveTags p names w).2
       = invoked w ++ [remove_tags_from_save_command p names]).
Proof.
  repeat apply conj; intros;
    [unfold getBackupTags|unfold addBackupTags|unfold removeBackupTags
    |unfold getSaveTags|unfold addSaveTags|unfold removeSaveTags];
    unfold_hook;
    by destruct (invoke _ (backend w)) as [[e|v] b1].
Qed.

End HookOutcomes.

(** ** [TagPicker]: the creation form *)

Lemma trimStart_head (s : jsstring) (c : N) :
  head (trimStart s) = Some c → isWhiteSpace c = false.
Proof.
  induction s as [|x s IH]; simpl; [done|].
  destruct (isWhiteSpace x) eqn:E; [done|]. simpl. by intros [= <-].
Qed.

Lemma trimStart_fixed (s : jsstring) :
  (∀ c, head s = Some c → isWhiteSpace c = false) → trimStart s = s.
Proof.
  destruct s as [|x s]; simpl; [done|]. intros H. by rewrite H.
Qed.

Lemma trimStart_keeps_last (s : jsstring) (c : N) :
  isWhiteSpace c = false → ∃ s', trimStart (s ++ [c]) = s' ++ [c].
Proof.
  intros Hc. induction s as [|x s [s' IH]]; simpl.
  - rewrite Hc. by exists [].
  - destruct (isWhiteSpace x); [by exists s'|]. by exists (x :: s).
Qed.

Lemma trimEnd_keeps_head (s : jsstring) (c : N) :
  isWhiteSpace c = false → head (trimEnd (c :: s)) = Some c.
Proof.
  intros Hc. unfold trimEnd. simpl.
  destruct (trimStart_keeps_last (rev s) c Hc) as [s' ->].
  by rewrite rev_unit.
Qed.

Lemma head_rev_last (s : jsstring) : head (rev s) = last s.
Proof.
  induction s as [|x s IH] using rev_ind; [done|].
  by rewrite rev_unit, last_snoc.
Qed.

Lemma trimEnd_last (s : jsstring) (c : N) :
  last (trimEnd s) = Some c → isWhiteSpace c = false.
Proof.
  unfold trimEnd. rewrite <- head_rev_last, rev_involutive.
  apply trimStart_head.
Qed.

Lemma trimEnd_fixed (s : jsstring) :
  (∀ c, last s = Some c → isWhiteSpace c = false) → trimEnd s = s.
Proof.
  intros H. unfold trimEnd. rewrite trimStart_fixed.
  - apply rev_involutive.
  - intros c. rewrite head_rev_last. apply H.
Qed.

(** A trimmed string neither starts nor ends with white space, and
    trimming it again changes nothing. *)
Lemma trim_ends (s : jsstring) :
  (∀ c, head (trim s) = Some c → isWhiteSpace c = false)
  ∧ (∀ c, last (trim s) = Some c → isWhiteSpace c = false).
Proof.
  split; [|intros c; apply trimEnd_last].
  intros c. unfold trim.
  destruct (trimStart s) as [|x s'] eqn:E; [done|].
  assert (isWhiteSpace x = false) as Hx.
  { apply (trimStart_head s). by rewrite E. }
  rewrite (trimEnd_keeps_head _ _ Hx). by intros [= <-].
Qed.

Lemma trim_idempotent (s : jsstring) : trim (trim s) = trim s.
Proof.
  destruct (trim_ends s) as [Hh Hl].
  unfold trim at 1. rewrite (trimStart_fixed _ Hh). by apply trimEnd_fixed.
Qed.

(** X12. Every name the form hands to [onCreateTag] is trimmed: it neither
    starts nor ends with a white-space code unit, so trimming it again
    gives the same name. *)
Theorem created_name_is_trimmed (hasOnCreateTag : bool)
    (st : TagPicker.State) (n c : jsstring) :
  (n, c) ∈ TagPicker.created (TagPicker.handleCreateTag hasOnCreateTag st).1 →
  trim n = n
  ∧ (∀ u, head n = Some u → isWhiteSpace u = false)
  ∧ (∀ u, last n = Some u → isWhiteSpace u = false).
Proof.
  unfold TagPicker.handleCreateTag.
  destruct (truthy _); simpl; [|by intros ?%elem_of_nil].
  destruct (isValidHexColor _); simpl; [|by intros ?%elem_of_nil].
  destruct hasOnCreateTag; simpl; [|by intros ?%elem_of_nil].
  intros [= -> ->]%list_elem_of_singleton.
  split; [apply trim_idempotent|apply trim_ends].
Qed.

Lemma created_name_is_trimmed_witness :
  trim (lit "Boss") = lit "Boss".
Proof.
  apply (created_name_is_trimmed true
           (TagPicker.mkState true (lit "  Boss ") (lit "#3B82F6") [])
           (lit "Boss") (lit "#3B82F6")).
  compute_done.
Defined.

(** X13. A submission leaves a form that submits nothing: after a creation
    the name is reset to the empty string, and a refused submission
    leaves the form as it was.  Two submissions in a row call
    [onCreateTag] at most once. *)
Theorem second_submit_creates_nothing (hasOnCreateTag : bool)
    (st : TagPicker.State) :
  let first := TagPicker.handleCreateTag hasOnCreateTag st in
  let second := TagPicker.handleCreateTag hasOnCreateTag first.2 in
  TagPicker.created second.1 = []
  ∧ (length (TagPicker.created first.1 ++ TagPicker.created second.1) ≤ 1)%nat
  ∧ ((first.2 = st ∧ TagPicker.created first.1 = [])
     ∨ first.2 = TagPicker.mkState false [] (TagPicker.newTagColor st) []).
Proof.
  unfold TagPicker.handleCreateTag.
  destruct (truthy (trim (TagPicker.newTagName st))) eqn:Hn; simpl.
  - destruct (isValidHexColor (TagPicker.chosenColor st)) eqn:Hc; simpl.
    + destruct hasOnCreateTag; simpl; (split; [done|split; [lia|by right]]).
    + rewrite Hn. simpl. rewrite Hc. simpl.
      split; [done|]. split; [lia|by left].
  - rewrite Hn. simpl. split; [done|]. split; [lia|by left].
Qed.

(** Every colour of the palette passes the check of the form. *)
Lemma palette_valid (entry : string * jsstring) :
  entry ∈ DEFAULT_TAG_COLORS → isValidHexColor entry.2 = true.
Proof.
  revert entry. apply Forall_forall.
  repeat constructor.
Qed.

(** X14. A click on a palette colour selects it and drops the custom
    colour; when the submit button is enabled, the submission then
    calls [onCreateTag] with the trimmed name and that colour. *)
Theorem palette_colour_is_submitted (entry : string * jsstring)
    (st : TagPicker.State) :
  entry ∈ DEFAULT_TAG_COLORS →
  TagPicker.submitDisabled false (TagPicker.pickColor entry.2 st) = false →
  TagPicker.created
    (TagPicker.handleCreateTag true (TagPicker.pickColor entry.2 st)).1
  = [(trim (TagPicker.newTagName st), entry.2)].
Proof.
  intros Hentry Hen. apply palette_valid in Hentry.
  unfold TagPicker.submitDisabled in Hen. simpl in Hen.
  apply negb_false_iff in Hen.
  unfold TagPicker.handleCreateTag, TagPicker.chosenColor, or_else. simpl.
  by rewrite Hen, Hentry.
Qed.

Lemma palette_colour_is_submitted_witness :
  TagPicker.created
    (TagPicker.handleCreateTag true
       (TagPicker.pickColor (lit "#EF4444")
          (TagPicker.mkState true (lit "Boss") (lit "#3B82F6")
             (lit "#12")))).1
  = [(lit "Boss", lit "#EF4444")].
Proof.
  apply (palette_colour_is_submitted ("Red"%string, lit "#EF4444")
           (TagPicker.mkState true (lit "Boss") (lit "#3B82F6") (lit "#12")));
    compute_done.
Defined.

(** ** [TagEditor] and [TagList]: the selection *)

Lemma isTagSelected_some_named (selected : list Tag) (tag : Tag) :
  TagPicker.isTagSelected selected tag = some_named (name tag) selected.
Proof.
  unfold TagPicker.isTagSelected, TagPicker.selectedTagNames.
  destruct (some_named (name tag) selected) eqn:E.
  - apply bool_decide_eq_true, elem_of_list_to_set. by apply some_named_elem.
  - apply bool_decide_eq_false. rewrite elem_of_list_to_set.
    intros H%some_named_elem. congruence.
Qed.

Lemma some_named_toggle (tag : Tag) (prev : list Tag) (n : jsstring) :
  some_named n (handleTagToggle tag prev)
  = if bool_decide (n = name tag) then negb (some_named n prev)
    else some_named n prev.
Proof.
  unfold handleTagToggle.
  destruct (some_named (name tag) prev) eqn:E.
  - case_bool_decide as Hn.
    + subst n. rewrite E. simpl. apply not_true_is_false.
      intros [_ H]%some_named_elem%names_without. done.
    + destruct (some_named n prev) eqn:E'.
      * apply some_named_elem, names_without. split; [|done].
        by apply some_named_elem.
      * apply not_true_is_false.
        intros [H _]%some_named_elem%names_without.
        apply some_named_elem in H. congruence.
  - case_bool_decide as Hn.
    + subst n. rewrite E. simpl.
      apply some_named_elem. rewrite map_app, elem_of_app. right. left.
    + destruct (some_named n prev) eqn:E'.
      * apply some_named_elem. rewrite map_app, elem_of_app. left.
        by apply some_named_elem.
      * apply not_true_is_false. intros H%some_named_elem.
        rewrite map_app, elem_of_app in H. destruct H as [H|H].
        -- apply some_named_elem in H. congruence.
        -- by apply list_elem_of_singleton in H.
Qed.

(** X15. The picker marks a tag as selected exactly when a click on it
    would deselect it, and a click flips that mark for the tags of this
    name and for no other. *)
Theorem toggle_flips_selection (selected : list Tag) (tag other : Tag) :
  TagPicker.isTagSelected selected tag = some_named (name tag) selected
  ∧ TagPicker.isTagSelected (handleTagToggle tag selected) other
    = if bool_decide (name other = name tag)
      then negb (TagPicker.isTagSelected selected other)
      else TagPicker.isTagSelected selected other.
Proof.
  rewrite !isTagSelected_some_named. split; [done|apply some_named_toggle].
Qed.

(** X16. Selecting a tag and clicking it again gives back the list as it
    was; deselecting a tag and clicking it again puts the clicked tag,
    with the colour it has in the picker, at the end of the list. *)
Theorem handleTagToggle_twice (tag : Tag) (prev : list Tag) :
  handleTagToggle tag (handleTagToggle tag prev)
  = if some_named (name tag) prev then without (name tag) prev ++ [tag]
    else prev.
Proof.
  pose proof (some_named_toggle tag prev (name tag)) as H.
  rewrite bool_decide_eq_true_2 in H by done.
  unfold handleTagToggle at 1. rewrite H.
  unfold handleTagToggle. destruct (some_named (name tag) prev) eqn:E; simpl.
  - done.
  - unfold without. rewrite List.filter_app. simpl.
    unfold jsstring_eqb at 2. rewrite bool_decide_eq_true_2 by done. simpl.
    rewrite app_nil_r. apply without_absent.
    intros H'%some_named_elem. congruence.
Qed.

Lemma without_sublist (n : jsstring) (tags : list Tag) :
  sublist (without n tags) tags.
Proof.
  unfold without. induction tags as [|t tags IH]; simpl; [done|].
  destruct (negb _); by constructor.
Qed.

Lemma elem_of_without (n : jsstring) (tags : list Tag) (t : Tag) :
  t ∈ without n tags ↔ t ∈ tags ∧ name t ≠ n.
Proof.
  unfold without. rewrite !list_elem_of_In, filter_In, negb_true_iff.
  unfold jsstring_eqb. by rewrite bool_decide_eq_false.
Qed.

(** X17. [handleRemoveSelected] removes the tags of the given name, all of
    them, and nothing else: the others stay, in their order. *)
Theorem handleRemoveSelected_exact (tagName : jsstring) (prev : list Tag) :
  (∀ t, t ∈ handleRemoveSelected tagName prev ↔ t ∈ prev ∧ name t ≠ tagName)
  ∧ sublist (handleRemoveSelected tagName prev) prev
  ∧ some_named tagName (handleRemoveSelected tagName prev) = false.
Proof.
  unfold handleRemoveSelected. split; [|split].
  - intros t. apply elem_of_without.
  - apply without_sublist.
  - apply not_true_is_false. intros [_ H]%some_named_elem%names_without.
    done.
Qed.

Lemma without_delete (tags : list Tag) (i : nat) (t : Tag) :
  NoDup (map name tags) → tags !! i = Some t →
  without (name t) tags = delete i tags.
Proof.
  revert i. induction tags as [|x tags IH]; intros i Hnd Hi; [done|].
  simpl in Hnd. apply NoDup_cons in Hnd as [Hx Hnd].
  destruct i as [|i]; simpl in *.
  - injection Hi as ->. unfold jsstring_eqb.
    rewrite bool_decide_eq_true_2 by done. simpl. by apply without_absent.
  - unfold jsstring_eqb. rewrite bool_decide_eq_false_2.
    + simpl. f_equal. by apply IH.
    + intros E. apply Hx. rewrite E. apply list_elem_of_In, in_map.
      apply list_elem_of_In. by eapply list_elem_of_lookup_2.
Qed.

Section EditorSteps.
Context {B Err : Type} `{!Backend B Err}.

(** X18. A click on the remove button of a chip of the selection removes
    every tag that has the chip's name; when the selected names are
    pairwise distinct, that is the chip itself and nothing else.  There
    is nothing to click past the end of the list. *)
Theorem clickRemove_deletes_chip (index : nat)
    (w : World B Err TagEditor.State) :
  match selectedTags (local w) !! index with
  | Some t =>
      selectedTags (local (clickRemove index w).2)
      = handleRemoveSelected (name t) (selectedTags (local w))
      ∧ (NoDup (map name (selectedTags (local w))) →
         selectedTags (local (clickRemove index w).2)
         = delete index (selectedTags (local w)))
  | None => clickRemove index w = (Returned tt, w)
  end.
Proof.
  unfold clickRemove, TagList.render.
  destruct (selectedTags (local w)) as [|x tags] eqn:E; [done|].
  change (Nat.eqb (length (x :: tags)) 0) with false. cbv iota.
  rewrite list_lookup_fmap.
  destruct ((x :: tags) !! index) as [t|] eqn:Hi; simpl; [|done].
  rewrite E. split; [done|]. intros Hnd.
  unfold handleRemoveSelected. by apply without_delete.
Qed.

End EditorSteps.

Section EditorCalls.
Context {B Err : Type} `{!Backend B Err}.
Variable onSave : list jsstring → B → (Err + unit) * B.

(** X19. [handleSave] never throws.  It calls [onSave] once, with the names
    of the selection in order; it calls [onCancel], closing the dialog,
    only when [onSave] resolves, and otherwise sets the error message
    and leaves the dialog open.  The selection is kept and [saving] is
    released either way. *)
Theorem handleSave_outcome (captured : list Tag)
    (w : World B Err TagEditor.State) :
  let result := TagEditor.handleSave onSave captured w in
  result.1 = Returned tt
  ∧ selectedTags (local result.2) = selectedTags (local w)
  ∧ saving (local result.2) = false
  ∧ backend result.2 = (onSave (map name captured) (backend w)).2
  ∧ invoked result.2 = invoked w
  ∧ match (onSave (map name captured) (backend w)).1 with
    | inr _ =>
        called (local result.2)
        = called (local w) ++ [OnSave (map name captured); OnCancel]
        ∧ TagEditor.error (local result.2) = None
    | inl _ =>
        called (local result.2)
        = called (local w) ++ [OnSave (map name captured)]
        ∧ TagEditor.error (local result.2)
          = Some (lit "Failed to save tags")
    end.
Proof.
  unfold TagEditor.handleSave, finally, try_catch, await_onSave.
  unfold mbind, M_bind, Async.bind, await. simpl.
  destruct (onSave _ _) as [[e|[]] b']; simpl; [done|].
  by rewrite <- app_assoc.
Qed.

(** The run of [handleCreateTag] of the dialog, by the answer of the
    backend to the creation. *)
Lemma editor_create_run (captured : list Tag) (n c : jsstring)
    (w : World B Err TagEditor.State) :
  let result := TagEditor.handleCreateTag captured n c w in
  result.1 = Returned tt
  ∧ called (local result.2) = called (local w)
  ∧ saving (local result.2) = saving (local w)
  ∧ match (invoke (create_tag_command n c) (backend w)).1 with
    | inl _ =>
        selectedTags (local result.2) = selectedTags (local w)
        ∧ TagEditor.error (local result.2)
          = Some (lit "Failed to create tag")
        ∧ invoked result.2 = invoked w ++ [create_tag_command n c]
    | inr _ =>
        selectedTags (local result.2)
        = (if some_named n captured then selectedTags (local w)
           else selectedTags (local w) ++ [mkTag n c])
        ∧ TagEditor.error (local result.2) = TagEditor.error (local w)
        ∧ invoked result.2
          = invoked w ++ [create_tag_command n c; get_all_tags_command;
                          get_all_tags_command]
    end.
Proof.
  cbv zeta.
  remember (TagEditor.handleCreateTag captured n c w) as result eqn:E.
  unfold TagEditor.handleCreateTag, try_catch in E.
  unfold mbind, mret, M_bind, M_ret, Async.bind, Async.ret in E.
  unfold with_hook at 1 in E. unfold zoom in E.
  rewrite createTag_run in E. simpl in E.
  destruct (invoke (create_tag_command n c) (backend w)) as [[e|[]] b1];
    simpl in *; [by subst result|].
  rewrite loadAllTags_run in E. simpl in E.
  destruct (invoke get_all_tags_command b1) as [[e1|tags1] b2]; simpl in E;
    unfold with_hook, zoom in E; rewrite loadAllTags_run in E; simpl in E;
    destruct (invoke get_all_tags_command b2) as [[e2|tags2] b3]; simpl in E;
    destruct (some_named n captured); simpl in E; subst result; simpl;
    by rewrite <- !app_assoc.
Qed.

(** X20. [handleCreateTag] of the dialog never throws.  When the backend
    rejects the creation, the selection is kept, the error message is
    set and nothing is reloaded.  When it resolves, the tags are
    reloaded twice (by [createTag] and by the handler), and the new tag
    is appended unless the captured selection has its name. *)
Theorem editor_create_outcome (captured : list Tag) (n c : jsstring)
    (w : World B Err TagEditor.State) :
  let result := TagEditor.handleCreateTag captured n c w in
  result.1 = Returned tt
  ∧ called (local result.2) = called (local w)
  ∧ saving (local result.2) = saving (local w)
  ∧ match (invoke (create_tag_command n c) (backend w)).1 with
    | inl _ =>
        selectedTags (local result.2) = selectedTags (local w)
        ∧ TagEditor.error (local result.2)
          = Some (lit "Failed to create tag")
        ∧ invoked result.2 = invoked w ++ [create_tag_command n c]
    | inr _ =>
        selectedTags (local result.2)
        = (if some_named n captured then selectedTags (local w)
           else selectedTags (local w) ++ [mkTag n c])
        ∧ TagEditor.error (local result.2) = TagEditor.error (local w)
        ∧ invoked result.2
          = invoked w ++ [create_tag_command n c; get_all_tags_command;
                          get_all_tags_command]
    end.
Proof. apply editor_create_run. Qed.

(** X21. A submission of the creation form inside the dialog sends the
    backend at most one [create_tag_command], and only with the
    trimmed, non-empty name of the form and a colour that passes
    [isValidHexColor]; the only other command it invokes is
    [get_all_tags_command]. *)
Theorem dialog_creates_only_valid_tags (form : TagPicker.State)
    (w : World B Err TagEditor.State) :
  let w' := (submitCreateForm form w).2 in
  ∃ sent,
    invoked w' = invoked w ++ sent
    ∧ (sent = []
       ∨ (∃ reloads,
            sent = create_tag_command (trim (TagPicker.newTagName form))
                     (TagPicker.chosenColor form) :: reloads
            ∧ Forall (λ cmd, cmd = get_all_tags_command) reloads
            ∧ trim (TagPicker.newTagName form) ≠ []
            ∧ isValidHexColor (TagPicker.chosenColor form) = true)).
Proof.
  unfold submitCreateForm, TagPicker.handleCreateTag.
  destruct (truthy (trim (TagPicker.newTagName form))) eqn:Hn; simpl.
  - destruct (isValidHexColor (TagPicker.chosenColor form)) eqn:Hc; simpl.
    + pose proof (editor_create_run (selectedTags (local w))
                    (trim (TagPicker.newTagName form))
                    (TagPicker.chosenColor form) w) as (_ & _ & _ & H).
      apply truthy_nonempty in Hn.
      destruct (invoke _ (backend w)).1; destruct H as (_ & _ & ->);
        eexists; (split; [done|right]); eexists; repeat split; auto.
    + exists []. rewrite app_nil_r. auto.
  - exists []. rewrite app_nil_r. auto.
Qed.

End EditorCalls.

(** ** The further properties on the scenario *)

Lemma failed_mutation_keeps_tags_witness :
  Hooks.tags (local (Hooks.createTag (lit "Boss") (lit "#22C55E")
                       offline_tags).2)
  = [important]
  ∧ invoked (Hooks.deleteTag (lit "Important") offline_tags).2
    = [delete_tag_command (lit "Important")].
Proof.
  destruct (failed_mutation_keeps_tags offline_tags
              (lit "backend unreachable") tt) as [Hc Hd].
  split.
  - apply (Hc (lit "Boss") (lit "#22C55E")). reflexivity.
  - apply (Hd (lit "Important")). reflexivity.
Defined.

Lemma reads_return_answer_witness :
  (Hooks.getSaveTags (lit "world1") ops1).1 = Returned [important]
  ∧ Hooks.op_error (local (Hooks.getSaveTags (lit "world1") ops1).2) = None.
Proof.
  rewrite (proj2 (reads_return_answer ops1 [important] store1)
             (lit "world1") eq_refl).
  split; reflexivity.
Defined.

Lemma association_updates_resolve_witness :
  (Hooks.addSaveTags (lit "world1") [lit "Important"] ops0).1 = Returned tt
  ∧ backend (Hooks.addSaveTags (lit "world1") [lit "Important"] ops0).2
    = store1.
Proof.
  destruct (association_updates_resolve ops0 store1) as (_ & _ & H & _).
  rewrite (H (lit "world1") [lit "Important"] eq_refl).
  split; reflexivity.
Defined.

Lemma clickRemove_deletes_chip_witness :
  selectedTags (local (clickRemove 0 editor0).2) = [].
Proof.
  apply (clickRemove_deletes_chip 0 editor0). compute_done.
Defined.
